(** * obot-telegram: the message relay of [main.go]

    A shallow embedding of the Telegram relay tool: the authorization
    gate ([isAuthorized]), the attachment materializer ([uploadToWs]),
    the buffered channel [messageQueue], the [/message] and [/send]
    HTTP handlers and the body of the update loop of [main].

    The Go program talks to the outside through the HTTP client
    ([http.Get]), the workspace store ([WriteFileInWorkspace]), the
    UUID generator and the Telegram bot API; the JSON decoder of the
    [/send] handler is kept outside as well.  Their answers are taken
    from a [World] of oracles, indexed by how many calls came before, so
    that every run of the program is a run of the model for some world.
    What the program does to the outside is kept in the [State] as
    traces (URLs fetched, files written, messages sent, log lines).
    The handlers run one at a time: a poll is not interleaved with the
    listener.

    The parts of the Go standard library whose results the handlers
    build on ([strconv.ParseInt], [filepath.Ext], [fmt]'s [%s] and [%d],
    [encoding/json]'s encoder for a struct of strings, the status rules
    of [http.ResponseWriter]) are written out as functions. *)

From Stdlib Require Import ZArith NArith String Ascii List Lia.
From stdpp Require Import base option gmap strings list pretty.

Local Open Scope string_scope.
Local Open Scope Z_scope.

(** ** Characters and small string helpers *)

Definition byte (c : ascii) : N := N_of_ascii c.

(** The double quote, the backslash and the line feed cannot be typed
    inside a literal conveniently, so they get names. *)
Definition dquote : ascii := ascii_of_N 34.
Definition backslash : ascii := ascii_of_N 92.
Definition newline : ascii := ascii_of_N 10.

Definition str (c : ascii) : string := String c "".
Definition nl : string := str newline.

Fixpoint concat_strings (l : list string) : string :=
  match l with
  | [] => ""
  | s :: l' => s +:+ concat_strings l'
  end.

(** [join sep l]: the elements of [l] with [sep] between neighbours. *)
Fixpoint join (sep : string) (l : list string) : string :=
  match l with
  | [] => ""
  | [s] => s
  | s :: l' => s +:+ sep +:+ join sep l'
  end.

(** [contains s sub]: [sub] occurs in [s] as a contiguous block. *)
Definition contains (s sub : string) : Prop :=
  exists pre post, s = pre +:+ sub +:+ post.

(** Go's [error] values are kept as their description. *)
Definition error := string.

Inductive result (A : Type) : Type :=
| Ok (a : A)
| Err (e : error).
Arguments Ok {A} a.
Arguments Err {A} e.

(** ** [strconv] *)

Module strconv.

Definition digit (c : ascii) : option Z :=
  let b := byte c in
  if ((48 <=? b) && (b <=? 57))%N then Some (Z.of_N b - 48) else None.

(** The digit loop of [ParseUint] in base 10, on unbounded integers:
    [None] is the syntax error of a character that is no digit. *)
Fixpoint digits (acc : Z) (s : string) : option Z :=
  match s with
  | "" => Some acc
  | String c s' =>
    match digit c with
    | Some d => digits (acc * 10 + d) s'
    | None => None
    end
  end.

(** [ParseUint(s, 10, 64)] before its range check: the empty string is
    a syntax error. *)
Definition ParseUint (s : string) : option Z :=
  match s with
  | "" => None
  | _ => digits 0 s
  end.

(** [ParseInt(s, 10, bitSize)]: an optional sign, then [ParseUint];
    a value outside the [bitSize]-bit signed range is a range error.
    [None] stands for [err != nil] (the callers only test that). *)
Definition ParseInt (s : string) (bitSize : Z) : option Z :=
  match s with
  | "" => None
  | String c rest =>
    let '(neg, ds) :=
      if Ascii.eqb c "+" then (false, rest)
      else if Ascii.eqb c "-" then (true, rest)
      else (false, s) in
    match ParseUint ds with
    | None => None
    | Some un =>
      let cutoff := 2 ^ (bitSize - 1) in
      if neg then (if un <=? cutoff then Some (- un) else None)
      else (if un <? cutoff then Some un else None)
    end
  end.

(** Go's [int] on the 64-bit platforms the tool is built for. *)
Definition intSize : Z := 64.

(** [Atoi(s)] is [ParseInt(s, 10, 0)] (its fast path for short
    strings computes the same result). *)
Definition Atoi (s : string) : option Z := ParseInt s intSize.

End strconv.

(** ** [path/filepath] *)

Module filepath.

(** The loop of [Ext]: [i] runs from the last byte down, stops at a
    path separator, and returns [path[i:]] at the first dot it meets.
    [r] holds [path[..i]] reversed (its head is [path[i]]), [suffix]
    is [path[i+1:]]. *)
Fixpoint scan (r : list ascii) (suffix : string) : string :=
  match r with
  | [] => ""
  | c :: r' =>
    if Ascii.eqb c "/" then ""
    else if Ascii.eqb c "." then String c suffix
    else scan r' (String c suffix)
  end.

Definition Ext (path : string) : string :=
  scan (rev (list_ascii_of_string path)) "".

End filepath.

(** ** [unicode/utf8] *)

Module utf8.

Definition RuneError : Z := 0xFFFD.

(** The table [first] with [acceptRanges]: for a leading byte, the
    length of the sequence and the range its second byte must lie in;
    [None] for a byte that starts no sequence. *)
Definition lead (s0 : N) : option (nat * N * N) :=
  (if (0xC2 <=? s0) && (s0 <=? 0xDF) then Some (2%nat, 0x80, 0xBF)
   else if s0 =? 0xE0 then Some (3%nat, 0xA0, 0xBF)
   else if s0 =? 0xED then Some (3%nat, 0x80, 0x9F)
   else if (0xE1 <=? s0) && (s0 <=? 0xEF) then Some (3%nat, 0x80, 0xBF)
   else if s0 =? 0xF0 then Some (4%nat, 0x90, 0xBF)
   else if s0 =? 0xF4 then Some (4%nat, 0x80, 0x8F)
   else if (0xF1 <=? s0) && (s0 <=? 0xF3) then Some (4%nat, 0x80, 0xBF)
   else None)%N.

Definition within (lo hi b : N) : bool := ((lo <=? b) && (b <=? hi))%N.

(** A continuation byte, [locb <= b <= hicb]. *)
Definition cont (b : N) : bool := within 0x80 0xBF b.

Definition low6 (b : N) : Z := Z.land (Z.of_N b) 0x3F.

(** [DecodeRuneInString]: the rune at the head of [s] and its width
    in bytes; [(RuneError, 1)] for an invalid or truncated
    sequence. *)
Definition DecodeRuneInString (s : string) : Z * nat :=
  match s with
  | "" => (RuneError, 0%nat)
  | String c0 t =>
    let s0 := byte c0 in
    if (s0 <? 0x80)%N then (Z.of_N s0, 1%nat)
    else
      match lead s0 with
      | None => (RuneError, 1%nat)
      | Some (sz, lo, hi) =>
        match sz, map byte (list_ascii_of_string (String.substring 0 (sz - 1) t)) with
        | 2%nat, [s1] =>
          if within lo hi s1
          then (Z.lor (Z.shiftl (Z.land (Z.of_N s0) 0x1F) 6) (low6 s1), 2%nat)
          else (RuneError, 1%nat)
        | 3%nat, [s1; s2] =>
          if within lo hi s1 && cont s2
          then (Z.lor (Z.shiftl (Z.land (Z.of_N s0) 0x0F) 12)
                  (Z.lor (Z.shiftl (low6 s1) 6) (low6 s2)), 3%nat)
          else (RuneError, 1%nat)
        | 4%nat, [s1; s2; s3] =>
          if within lo hi s1 && cont s2 && cont s3
          then (Z.lor (Z.shiftl (Z.land (Z.of_N s0) 0x07) 18)
                  (Z.lor (Z.shiftl (low6 s1) 12)
                     (Z.lor (Z.shiftl (low6 s2) 6) (low6 s3))), 4%nat)
          else (RuneError, 1%nat)
        | _, _ => (RuneError, 1%nat)
        end
      end
  end.

End utf8.

(** ** [encoding/json]: the encoder of a string (HTML escaping on, as
    [json.Marshal] sets it) *)

Module json.

Definition hex (n : N) : ascii :=
  from_option id "0"%char (String.get (N.to_nat n) "0123456789abcdef").

(** [htmlSafeSet] for a byte below [utf8.RuneSelf]. *)
Definition htmlSafe (b : N) : bool :=
  ((0x20 <=? b) && negb (b =? 0x22) && negb (b =? 0x5C)
   && negb (b =? 0x3C) && negb (b =? 0x3E) && negb (b =? 0x26))%N.

(** What [appendString] emits for one byte below [utf8.RuneSelf]. *)
Definition escape (c : ascii) : string :=
  let b := byte c in
  (if htmlSafe b then str c
   else if (b =? 0x5C) || (b =? 0x22) then String backslash (str c)
   else if b =? 0x08 then String backslash "b"
   else if b =? 0x0C then String backslash "f"
   else if b =? 0x0A then String backslash "n"
   else if b =? 0x0D then String backslash "r"
   else if b =? 0x09 then String backslash "t"
   else String backslash ("u00" +:+ str (hex (b / 16)) +:+ str (hex (b mod 16))))%N.

(** The loop of [appendString], one byte at a time.  After a rune of
    several bytes was decoded, [skip] counts its remaining bytes:
    they are copied ([copy = true], a valid rune) or left out
    ([copy = false], U+2028 and U+2029, already written as an
    escape). *)
Fixpoint appendString (copy : bool) (skip : nat) (src : string) : string :=
  match src with
  | "" => ""
  | String c rest =>
    match skip with
    | S k => (if copy then str c else "") +:+ appendString copy k rest
    | O =>
      if (byte c <? 0x80)%N then escape c +:+ appendString true 0 rest
      else
        let '(r, size) := utf8.DecodeRuneInString src in
        if (r =? utf8.RuneError) && (size =? 1)%nat
        then String backslash "ufffd" +:+ appendString true 0 rest
        else if (r =? 0x2028) || (r =? 0x2029)
        then String backslash ("u202" +:+ str (hex (Z.to_N (Z.land r 0xF))))
               +:+ appendString false (size - 1) rest
        else str c +:+ appendString true (size - 1) rest
    end
  end.

(** A JSON string literal. *)
Definition quote (s : string) : string :=
  str dquote +:+ appendString true 0 s +:+ str dquote.

(** One [key:value] member; the keys of the tool are plain letters. *)
Definition member (key value : string) : string :=
  str dquote +:+ key +:+ str dquote +:+ ":" +:+ quote value.

(** A member tagged [omitempty] is left out when its value is the
    empty string. *)
Definition omitempty (key value : string) : list string :=
  if decide (value = "") then [] else [member key value].

End json.

(** ** The message record *)

Record Message := mkMessage {
  User : string;      (* json:"user,omitempty" *)
  ChatID : string;    (* json:"chatId" *)
  MsgID : string;     (* json:"msgId,omitempty" *)
  Text : string;      (* json:"text" *)
  VoiceURL : string;  (* json:"voiceURL,omitempty" *)
  ImageURL : string;  (* json:"imageURL,omitempty" *)
  FileExt : string    (* json:"fileExt,omitempty" *)
}.

(** [msg.Text = t] on the handler's local copy. *)
Definition set_Text (t : string) (m : Message) : Message :=
  mkMessage (User m) (ChatID m) (MsgID m) t (VoiceURL m) (ImageURL m) (FileExt m).

(** [json.Marshal(msg)]: the members in field order.  For a struct whose
    fields are all strings the encoder has no error case. *)
Definition Marshal (m : Message) : string :=
  "{" +:+ join ","
            (json.omitempty "user" (User m)
             ++ [json.member "chatId" (ChatID m)]
             ++ json.omitempty "msgId" (MsgID m)
             ++ [json.member "text" (Text m)]
             ++ json.omitempty "voiceURL" (VoiceURL m)
             ++ json.omitempty "imageURL" (ImageURL m)
             ++ json.omitempty "fileExt" (FileExt m))
      +:+ "}".

Module fmt.

(** [%d] of an integer. *)
Definition d (n : Z) : string := pretty n.

(** [%s] of a [Message] value: [fmt] prints a struct as its fields in
    order, separated by one space, inside braces. *)
Definition s (m : Message) : string :=
  "{" +:+ User m +:+ " " +:+ ChatID m +:+ " " +:+ MsgID m +:+ " " +:+ Text m
      +:+ " " +:+ VoiceURL m +:+ " " +:+ ImageURL m +:+ " " +:+ FileExt m +:+ "}".

End fmt.

(** ** The Telegram bot API ([telegram-bot-api/v5]): the types the tool
    reads and builds.  Go's [update.Message.Chat.ID] is
    [Chat_ID (m_Chat um)] here, and so on: a projection carries the
    initial of its struct where Go reuses a field name. *)

Module telegram.

Record User := mkUser {
  ID : Z;
  FirstName : string;
  LastName : string;
  UserName : string
}.

Record Chat := mkChat { Chat_ID : Z }.
Record Voice := mkVoice { Voice_FileID : string }.
Record PhotoSize := mkPhotoSize { Photo_FileID : string }.
Record File := mkFile { FilePath : string }.

(** An incoming message.  [m_From], [m_Voice] and [m_Photo] are a
    pointer, a pointer and a slice in Go: [None] is [nil]. *)
Record Message := mkMessage {
  m_MessageID : Z;
  m_From : option User;
  m_Chat : Chat;
  m_Text : string;
  m_Voice : option Voice;
  m_Photo : option (list PhotoSize)
}.

Record Update := mkUpdate { u_Message : option Message }.

(** [update.SentFrom()]: for an update that carries a message, its
    sender. *)
Definition SentFrom (u : Update) : option User :=
  match u_Message u with
  | Some m => m_From m
  | None => None
  end.

(** An outgoing text message; [ReplyToMessageID] is Go's zero value
    unless assigned. *)
Record MessageConfig := mkMessageConfig {
  c_ChatID : Z;
  c_Text : string;
  ReplyToMessageID : Z
}.

Definition NewMessage (chatID : Z) (text : string) : MessageConfig :=
  mkMessageConfig chatID text 0.

Definition set_ReplyToMessageID (msgID : Z) (c : MessageConfig) : MessageConfig :=
  mkMessageConfig (c_ChatID c) (c_Text c) msgID.

(** [f.Link(token)]: the download URL of a resolved file. *)
Definition Link (f : File) (token : string) : string :=
  "https://api.telegram.org/file/bot" +:+ token +:+ "/" +:+ FilePath f.

End telegram.

(** ** The outside world *)

(** What [http.Get] returns when it does not fail: the status line and
    what [io.ReadAll(resp.Body)] will give. *)
Record Response := mkResponse {
  StatusCode : Z;
  Body : result string
}.

(** The answers of the outside.  The first argument of an oracle is the
    number of earlier calls of its kind, so that the same URL or file
    id may be answered differently at different times. *)
Record World := mkWorld {
  uuid_NewString : nat -> string;                (* uuid.NewString() *)
  http_Get : nat -> string -> result Response;   (* http.Get(url) *)
  WriteFileInWorkspace : nat -> string -> string -> option error;
                                                 (* path, content; [None] is a nil error *)
  json_Unmarshal : string -> result Message;     (* json.Unmarshal(body, &req) *)
  bot_Token : string;                            (* bot.Token *)
  bot_GetFile : nat -> string -> result telegram.File;
                                                 (* bot.GetFile, by file id *)
  bot_Send : nat -> telegram.MessageConfig -> option error
                                                 (* bot.Send(msg) *)
}.

(** ** The state of the process *)

Inductive LogEntry :=
| LogInfo (text : string)
| LogFound (m : Message)            (* slog.Info("Found Message", "Message", msg) *)
| LogWarn (text : string)
| LogError (text : string).

Record State := mkState {
  allowedUserIDs : gset Z;
  allowedUserNames : gset string;
  messageQueue : list Message;      (* the channel's buffer, oldest first *)
  fetched : list string;            (* URLs given to http.Get, oldest first *)
  workspace : gmap string string;   (* files written to the workspace *)
  resolved : list string;           (* file ids given to bot.GetFile *)
  sent : list telegram.MessageConfig; (* messages given to bot.Send *)
  log : list LogEntry
}.

(** The capacity of [make(chan Message, 100)]. *)
Definition capacity : nat := 100.

Definition set_queue (q : list Message) (s : State) : State :=
  mkState (allowedUserIDs s) (allowedUserNames s) q (fetched s) (workspace s)
          (resolved s) (sent s) (log s).

Definition add_fetched (url : string) (s : State) : State :=
  mkState (allowedUserIDs s) (allowedUserNames s) (messageQueue s) (fetched s ++ [url])
          (workspace s) (resolved s) (sent s) (log s).

Definition add_file (path data : string) (s : State) : State :=
  mkState (allowedUserIDs s) (allowedUserNames s) (messageQueue s) (fetched s)
          (<[path := data]> (workspace s)) (resolved s) (sent s) (log s).

Definition add_resolved (id : string) (s : State) : State :=
  mkState (allowedUserIDs s) (allowedUserNames s) (messageQueue s) (fetched s)
          (workspace s) (resolved s ++ [id]) (sent s) (log s).

Definition add_sent (c : telegram.MessageConfig) (s : State) : State :=
  mkState (allowedUserIDs s) (allowedUserNames s) (messageQueue s) (fetched s)
          (workspace s) (resolved s) (sent s ++ [c]) (log s).

Definition add_log (e : LogEntry) (s : State) : State :=
  mkState (allowedUserIDs s) (allowedUserNames s) (messageQueue s) (fetched s)
          (workspace s) (resolved s) (sent s) (log s ++ [e]).

(** The records the [/message] handler took out of the queue, in the
    order of its "Found Message" log lines. *)
Definition found (l : list LogEntry) : list Message :=
  omap (fun e => match e with LogFound m => Some m | _ => None end) l.

(** ** The channel *)

(** [messageQueue <- m]: appends when there is room; [None] when the
    buffer is full and the sender has to wait. *)
Definition send (m : Message) (q : list Message) : option (list Message) :=
  if (List.length q <? capacity)%nat then Some (q ++ [m])%list else None.

(** Sending a list of records one after the other. *)
Fixpoint send_all (ms : list Message) (q : list Message) : option (list Message) :=
  match ms with
  | [] => Some q
  | m :: ms' =>
    match send m q with
    | Some q' => send_all ms' q'
    | None => None
    end
  end.

(** ** [isAuthorized] *)

Definition isAuthorized (s : State) (user : option telegram.User) : bool :=
  match user with
  | None => false
  | Some u =>
    if decide (telegram.ID u ∈ allowedUserIDs s) then true
    else if decide (telegram.UserName u ∈ allowedUserNames s) then true
    else false
  end.

(** ** [http.ResponseWriter] *)

(** [status] is [None] until the header is written.  The first [Write]
    writes the header with status 200 if none was written before; a
    [WriteHeader] after that is ignored by [net/http] (it logs a
    superfluous call). *)
Record ResponseWriter := mkResponseWriter {
  status : option Z;
  body : string
}.

Definition StatusOK : Z := 200.
Definition StatusBadRequest : Z := 400.
Definition StatusInternalServerError : Z := 500.

Definition fresh : ResponseWriter := mkResponseWriter None "".

Definition WriteHeader (code : Z) (w : ResponseWriter) : ResponseWriter :=
  match status w with
  | None => mkResponseWriter (Some code) (body w)
  | Some _ => w
  end.

Definition rw_Write (data : string) (w : ResponseWriter) : ResponseWriter :=
  let w' := WriteHeader StatusOK w in
  mkResponseWriter (status w') (body w' +:+ data).

(** [http.Error(w, text, code)]: [WriteHeader(code)], then the text and
    a line feed. *)
Definition http_Error (w : ResponseWriter) (text : string) (code : Z) : ResponseWriter :=
  rw_Write (text +:+ nl) (WriteHeader code w).

(** The status the client sees: 200 when the handler returned without
    writing anything. *)
Definition sent_status (w : ResponseWriter) : Z := default StatusOK (status w).

(** ** The program *)

Section Program.

Variable W : World.

(** *** [uploadToWs] *)

(** Returns the generated path and the error (if any), as the Go
    function does: the path is returned on every exit.  The call is the
    [n]-th fetch, [n] being the number of URLs fetched before. *)
Definition uploadToWs (url ext : string) (s : State)
  : string * option error * State :=
  let n := List.length (fetched s) in
  let path := uuid_NewString W n +:+ ext in
  let s := add_fetched url s in
  match http_Get W n url with
  | Err e => (path, Some e, s)
  | Ok resp =>
    match Body resp with
    | Err e => (path, Some e, s)
    | Ok b =>
      match WriteFileInWorkspace W n path b with
      | Some e => (path, Some e, s)
      | None => (path, None, add_file path b s)
      end
    end
  end.

(** *** The [/message] handler *)

Definition voice_text (voiceID : string) (msg : Message) : string :=
  "<INFO>This message contains a voice file which you can find in the workspace at "
    +:+ voiceID +:+ "<INFO>" +:+ nl +:+ "<MESSAGE>" +:+ fmt.s msg +:+ "</MESSAGE>".

Definition image_text (imageID : string) (msg : Message) : string :=
  "<INFO>This message contains an image file which you can find in the workspace at "
    +:+ imageID +:+ "<INFO>" +:+ nl +:+ "<MESSAGE>" +:+ fmt.s msg +:+ "</MESSAGE>".

(** The [if msg.VoiceURL != "" ... else if msg.ImageURL != "" ...] of
    the loop body: the record to serialize, or the text of the error
    response. *)
Definition materialize (msg : Message) (s : State) : result Message * State :=
  if decide (VoiceURL msg <> "") then
    let '(voiceID, err, s) := uploadToWs (VoiceURL msg) (FileExt msg) s in
    match err with
    | Some e => (Err "Failed to upload voice file",
                 add_log (LogError "Failed to upload voice file") s)
    | None => (Ok (set_Text (voice_text voiceID msg) msg), s)
    end
  else if decide (ImageURL msg <> "") then
    let '(imageID, err, s) := uploadToWs (ImageURL msg) (FileExt msg) s in
    match err with
    | Some e => (Err "Failed to upload image file",
                 add_log (LogError "Failed to upload image file") s)
    | None => (Ok (set_Text (image_text imageID msg) msg), s)
    end
  else (Ok msg, s).

(** The [for { select { ... } }] loop, by recursion on the buffer [q]
    of the channel ([q] is [messageQueue s] at every call): the
    receive case is ready when the buffer is not empty and takes the
    oldest record; otherwise the default case runs at once and ends the
    request.  No record is enqueued while the handler runs. *)
Fixpoint drain (q : list Message) (s : State) (w : ResponseWriter)
  : State * ResponseWriter :=
  match q with
  | [] =>                         (* default: nothing to receive *)
    (s, rw_Write ("No messages" +:+ nl) w)
  | msg :: q' =>                  (* case msg := <-messageQueue *)
    let s := add_log (LogFound msg) (set_queue q' s) in
    match materialize msg s with
    | (Err text, s) => (s, http_Error w text StatusInternalServerError)
    | (Ok msg, s) => drain q' s (rw_Write (Marshal msg) w)
    end
  end.

Definition handleMessage (s : State) (w : ResponseWriter) : State * ResponseWriter :=
  drain (messageQueue s) s w.

(** The loop taken apart, for the statements below: [materialize_all]
    is what the loop does to the state, with the records it serializes
    and the error that ends it (if one does); [write_all] is its writes
    to the response.  [drain_materialize_all] shows that the two
    together are the loop. *)
Fixpoint materialize_all (q : list Message) (s : State)
  : list Message * option string * State :=
  match q with
  | [] => ([], None, s)
  | msg :: q' =>
    let s := add_log (LogFound msg) (set_queue q' s) in
    match materialize msg s with
    | (Err text, s) => ([], Some text, s)
    | (Ok msg, s) =>
      let '(out, e, s) := materialize_all q' s in (msg :: out, e, s)
    end
  end.

Fixpoint write_all (out : list Message) (w : ResponseWriter) : ResponseWriter :=
  match out with
  | [] => w
  | msg :: out' => write_all out' (rw_Write (Marshal msg) w)
  end.

(** *** The [/send] handler *)

(** A request, as far as the handler looks at it: what
    [io.ReadAll(r.Body)] gives. *)
Record Request := mkRequest { ReadAll_Body : result string }.

(** [bot.Send(msg)] and the lines after it. *)
Definition dispatch (msg : telegram.MessageConfig) (s : State) (w : ResponseWriter)
  : State * ResponseWriter :=
  match bot_Send W (List.length (sent s)) msg with
  | Some e => (add_sent msg s, http_Error w "Failed to send Message" StatusInternalServerError)
  | None => (add_sent msg s, w)
  end.

Definition handleSend (r : Request) (s : State) (w : ResponseWriter)
  : State * ResponseWriter :=
  match ReadAll_Body r with
  | Err e =>
    (add_log (LogError "Failed to read request body") s,
     http_Error w "Failed to read request body" StatusBadRequest)
  | Ok bodyBytes =>
    match json_Unmarshal W bodyBytes with
    | Err e =>
      (add_log (LogError "Failed to parse request") s,
       http_Error w "Failed to parse request" StatusBadRequest)
    | Ok req =>
      match strconv.ParseInt (ChatID req) 64 with
      | None =>
        (add_log (LogError "Invalid chat ID") s,
         http_Error w "Invalid chat ID" StatusBadRequest)
      | Some chatID =>
        let msg := telegram.NewMessage chatID (Text req) in
        if decide (MsgID req <> "") then
          match strconv.Atoi (MsgID req) with
          | None =>
            (add_log (LogError "Invalid Message ID") s,
             http_Error w "Invalid Message ID" StatusBadRequest)
          | Some msgID => dispatch (telegram.set_ReplyToMessageID msgID msg) s w
          end
        else dispatch msg s w
      end
    end
  end.

(** *** The update loop of [main] *)

(** [bot.GetFile(telegram.FileConfig{FileID: id})]. *)
Definition GetFile (id : string) (s : State) : result telegram.File * State :=
  (bot_GetFile W (List.length (resolved s)) id, add_resolved id s).

Definition set_Voice (url ext : string) (m : Message) : Message :=
  mkMessage (User m) (ChatID m) (MsgID m) (Text m) url (ImageURL m) ext.

Definition set_Image (url ext : string) (m : Message) : Message :=
  mkMessage (User m) (ChatID m) (MsgID m) (Text m) (VoiceURL m) url ext.

(** How one turn of [for update := range updates] ends. *)
Inductive Turn :=
| Skipped (s : State)                 (* [continue] *)
| Enqueued (s : State)                (* [messageQueue <- m] went through *)
| Waiting (m : Message) (s : State)   (* the buffer is full: the send waits *)
| Panicked (s : State).               (* a run-time panic *)

(** The record as built from the event, before any attachment. *)
Definition newRecord (um : telegram.Message) (user : telegram.User) : Message :=
  mkMessage
    (telegram.FirstName user +:+ " " +:+ telegram.LastName user
       +:+ " (" +:+ telegram.UserName user +:+ ")")
    (fmt.d (telegram.Chat_ID (telegram.m_Chat um)))
    (fmt.d (telegram.m_MessageID um))
    (telegram.m_Text um)
    "" "" "".

(** [if update.Message.Voice != nil { ... }]: [None] is the
    [continue] after a failed [GetFile]. *)
Definition resolveVoice (um : telegram.Message) (m : Message) (s : State)
  : option Message * State :=
  match telegram.m_Voice um with
  | None => (Some m, s)
  | Some v =>
    let s := add_log (LogInfo "Received a Voice Message") s in
    match GetFile (telegram.Voice_FileID v) s with
    | (Err e, s) => (None, add_log (LogError "Failed to get Voice URL") s)
    | (Ok f, s) =>
      (Some (set_Voice (telegram.Link f (bot_Token W))
                       (filepath.Ext (telegram.FilePath f)) m), s)
    end
  end.

(** The outcome of [if update.Message.Photo != nil { ... }]. *)
Inductive Resolved :=
| Kept (m : Message) (s : State)
| Dropped (s : State)        (* [continue] after a failed [GetFile] *)
| OutOfRange (s : State).    (* [Photo[0]] on an empty slice *)

Definition resolvePhoto (um : telegram.Message) (m : Message) (s : State) : Resolved :=
  match telegram.m_Photo um with
  | None => Kept m s
  | Some photos =>
    let s := add_log (LogInfo "Received a Photo Message") s in
    match photos with
    | [] => OutOfRange s
    | p :: _ =>
      match GetFile (telegram.Photo_FileID p) s with
      | (Err e, s) => Dropped (add_log (LogError "Failed to get Photo URL") s)
      | (Ok f, s) =>
        Kept (set_Image (telegram.Link f (bot_Token W))
                        (filepath.Ext (telegram.FilePath f)) m) s
      end
    end
  end.

Definition listen (update : telegram.Update) (s : State) : Turn :=
  match telegram.u_Message update with
  | None => Skipped s
  | Some um =>
    let user := telegram.SentFrom update in
    if negb (isAuthorized s user) then
      match user with
      | None => Panicked s     (* [user.ID] in the arguments of slog.Warn *)
      | Some _ => Skipped (add_log (LogWarn "Unauthorized user") s)
      end
    else
      match user with
      | None => Panicked s     (* not reached: isAuthorized(nil) is false *)
      | Some usr =>
        let s := add_log (LogInfo "Received a Message") s in
        let m := newRecord um usr in
        match resolveVoice um m s with
        | (None, s) => Skipped s
        | (Some m, s) =>
          match resolvePhoto um m s with
          | Dropped s => Skipped s
          | OutOfRange s => Panicked s
          | Kept m s =>
            match send m (messageQueue s) with
            | Some q => Enqueued (set_queue q s)
            | None => Waiting m s
            end
          end
        end
      end
  end.

End Program.

(** ** Start-up: the allow-lists *)

(** The two library functions the start-up code splits the environment
    with.  [TrimSpace] has a fast path for ASCII, written out here; when
    it meets a byte outside ASCII it hands over to the Unicode-aware
    [TrimFunc] or [TrimRightFunc] with [unicode.IsSpace], which are
    taken from outside. *)
Record Unicode := mkUnicode {
  TrimFunc_IsSpace : string -> string;       (* strings.TrimFunc(s, unicode.IsSpace) *)
  TrimRightFunc_IsSpace : string -> string   (* strings.TrimRightFunc(s, unicode.IsSpace) *)
}.

Module strings.

(** [Split(s, ",")]: the pieces between the commas, one more than there
    are commas; the empty string gives one empty piece. *)
Fixpoint Split (s : string) : list string :=
  match s with
  | "" => [""]
  | String c s' =>
    if Ascii.eqb c "," then "" :: Split s'
    else match Split s' with
         | p :: ps => String c p :: ps
         | [] => [str c]
         end
  end.

(** The table [asciiSpace]: tab, line feed, vertical tab, form feed,
    carriage return and space. *)
Definition asciiSpace (c : ascii) : bool :=
  let b := byte c in
  ((b =? 9) || (b =? 10) || (b =? 11) || (b =? 12) || (b =? 13) || (b =? 32))%N.

(** The second loop of [TrimSpace], from the end: [r] is [s[start:stop]]
    reversed. *)
Fixpoint trim_end (U : Unicode) (r : list ascii) : string :=
  match r with
  | [] => ""
  | c :: r' =>
    if (0x80 <=? byte c)%N
    then TrimRightFunc_IsSpace U (string_of_list_ascii (rev r))
    else if asciiSpace c then trim_end U r'
    else string_of_list_ascii (rev r)
  end.

(** [TrimSpace]: the first loop, from the front, then [trim_end]. *)
Fixpoint TrimSpace (U : Unicode) (s : string) : string :=
  match s with
  | "" => ""
  | String c s' =>
    if (0x80 <=? byte c)%N then TrimFunc_IsSpace U s
    else if asciiSpace c then TrimSpace U s'
    else trim_end U (rev (list_ascii_of_string s))
  end.

End strings.

(** The loop over [TELEGRAM_BOT_ALLOWED_USERIDS]: blank entries are
    skipped, an entry that is no 64-bit integer ends the process
    ([exitError]; the result is the error it prints), every other entry
    is added to the set. *)
Fixpoint loadUserIDs (U : Unicode) (entries : list string) (ids : gset Z)
  : result (gset Z) :=
  match entries with
  | [] => Ok ids
  | u :: rest =>
    let u := strings.TrimSpace U u in
    if decide (u = "") then loadUserIDs U rest ids
    else
      match strconv.ParseInt u 64 with
      | None => Err ("invalid allowed user id: " +:+ u)
      | Some uid => loadUserIDs U rest ({[ uid ]} ∪ ids)
      end
  end.

(** The loop over [TELEGRAM_BOT_ALLOWED_USERNAMES]. *)
Fixpoint loadUserNames (U : Unicode) (entries : list string) (names : gset string)
  : gset string :=
  match entries with
  | [] => names
  | u :: rest =>
    let u := strings.TrimSpace U u in
    if decide (u = "") then loadUserNames U rest names
    else loadUserNames U rest ({[ u ]} ∪ names)
  end.

(** The process before the loops: both maps empty, nothing queued. *)
Definition initial : State := mkState ∅ ∅ [] [] ∅ [] [] [].

(** The two loops of [main], given the values of the two environment
    variables: the state the server starts with, or the error the
    process exits with. *)
Definition configure (U : Unicode) (envIDs envNames : string) : result State :=
  match loadUserIDs U (strings.Split envIDs) (allowedUserIDs initial) with
  | Err e => Err e
  | Ok ids =>
    Ok (mkState ids (loadUserNames U (strings.Split envNames) (allowedUserNames initial))
                [] [] ∅ [] [] [])
  end.

(** ** The update loop over a sequence of updates *)

(** The state a turn of the loop ends in. *)
Definition turn_state (t : Turn) : State :=
  match t with
  | Skipped s | Enqueued s | Waiting _ s | Panicked s => s
  end.

(** How [for update := range updates] ends on a finite sequence of
    updates: the channel was closed after the last one, the loop waits
    on a full queue, or it panicked. *)
Inductive Run :=
| Finished (s : State)
| Blocked (m : Message) (s : State) (rest : list telegram.Update)
| Crashed (s : State).

Fixpoint listen_all (W : World) (updates : list telegram.Update) (s : State) : Run :=
  match updates with
  | [] => Finished s
  | update :: rest =>
    match listen W update s with
    | Skipped s' | Enqueued s' => listen_all W rest s'
    | Waiting m s' => Blocked m s' rest
    | Panicked s' => Crashed s'
    end
  end.

Definition run_state (r : Run) : State :=
  match r with
  | Finished s | Blocked _ s _ | Crashed s => s
  end.

(** The URL the poll fetches for a record, if any: the voice locator
    when it is set, else the image locator when that is set. *)
Definition locator (m : Message) : option string :=
  if decide (VoiceURL m <> "") then Some (VoiceURL m)
  else if decide (ImageURL m <> "") then Some (ImageURL m)
  else None.

(** [built_from s update m]: the record [m] was built from [update],
    whose sender is present and passes the gate of [s]; its sender
    line, chat, message id and text are those of the update. *)
Definition built_from (s : State) (update : telegram.Update) (m : Message) : Prop :=
  exists um usr,
    telegram.u_Message update = Some um
    /\ telegram.m_From um = Some usr
    /\ isAuthorized s (Some usr) = true
    /\ User m = User (newRecord um usr)
    /\ ChatID m = fmt.d (telegram.Chat_ID (telegram.m_Chat um))
    /\ MsgID m = fmt.d (telegram.m_MessageID um)
    /\ Text m = telegram.m_Text um.

(** [quiet s s']: from [s] to [s'] only the bot API was asked and log
    lines were written: the allow-lists, the queue, the fetches, the
    workspace, the sends and the record of what was taken out of the
    queue are the same. *)
Definition quiet (s s' : State) : Prop :=
  allowedUserIDs s' = allowedUserIDs s
  /\ allowedUserNames s' = allowedUserNames s
  /\ messageQueue s' = messageQueue s
  /\ fetched s' = fetched s
  /\ workspace s' = workspace s
  /\ sent s' = sent s
  /\ found (log s') = found (log s).

(** A character that [TrimSpace] keeps and [Split] does not cut at:
    ASCII, no white space, no comma. *)
Definition solid (c : ascii) : Prop :=
  (byte c <? 0x80)%N = true /\ strings.asciiSpace c = false /\ Ascii.eqb c "," = false.

(** A string without path separator and without dot. *)
Definition plain_name (t : string) : Prop :=
  forall c, In c (list_ascii_of_string t) -> c <> "/"%char /\ c <> "."%char.

(** ** Vocabulary of the statements *)

(** A record without attachment locators. *)
Definition plain (m : Message) : Prop := VoiceURL m = "" /\ ImageURL m = "".

(** [delivered m m']: [m'] is [m] as the poll hands it on, its text
    rewritten around some workspace path when [m] has a locator. *)
Definition delivered (m m' : Message) : Prop :=
  if decide (VoiceURL m <> "") then exists id, m' = set_Text (voice_text id m) m
  else if decide (ImageURL m <> "") then exists id, m' = set_Text (image_text id m) m
  else m' = m.

(** A [/send] request that does not pass validation: its body cannot be
    read, is not the JSON of a record, carries a [chatId] that is no
    64-bit integer, or carries a non-empty [msgId] that is no
    integer. *)
Definition bad_request (W : World) (r : Request) : Prop :=
  match ReadAll_Body r with
  | Err _ => True
  | Ok bodyBytes =>
    match json_Unmarshal W bodyBytes with
    | Err _ => True
    | Ok req =>
      strconv.ParseInt (ChatID req) 64 = None
      \/ (MsgID req <> "" /\ strconv.Atoi (MsgID req) = None)
    end
  end.

(** ** Sample inputs *)

(** A world where the host [down.example] cannot be reached, the path
    [/missing] answers 404 with an error page, and everything else is
    fetched and stored without error; the bot API resolves every file
    id to [voice/<id>.oga] and accepts every message. The decoder
    knows the two request bodies of the examples. *)
Definition url_down : string := "https://down.example/v.oga".
Definition url_missing : string := "https://files.example/missing".
Definition url_voice : string := "https://files.example/v.oga".
Definition url_image : string := "https://files.example/p.jpg".

Definition req_abc : Message := mkMessage "" "abc" "" "hi" "" "" "".
Definition req_123 : Message := mkMessage "" "123" "" "hi" "" "" "".
Definition req_reply : Message := mkMessage "" "123" "42" "hi" "" "" "".

(** A reply request whose [msgId] denotes 0. *)
Definition req_zero : Message := mkMessage "" "123" "0" "hi" "" "" "".

Definition world0 : World :=
  mkWorld
    (fun n => "f" +:+ pretty n)
    (fun _ url =>
       if decide (url = url_down) then Err "dial tcp: connection refused"
       else if decide (url = url_missing) then Ok (mkResponse 404 (Ok "Not Found"))
       else Ok (mkResponse 200 (Ok "DATA")))
    (fun _ _ _ => None)
    (fun b =>
       if decide (b = Marshal req_abc) then Ok req_abc
       else if decide (b = Marshal req_123) then Ok req_123
       else if decide (b = Marshal req_reply) then Ok req_reply
       else Err "invalid character")
    "TOKEN"
    (fun _ id => Ok (telegram.mkFile ("media/" +:+ id +:+ ".oga")))
    (fun _ _ => None).

(** [world0] with a decoder that also knows the body of [req_zero]. *)
Definition world_zero : World :=
  mkWorld (uuid_NewString world0) (http_Get world0) (WriteFileInWorkspace world0)
          (fun b => if decide (b = Marshal req_zero) then Ok req_zero
                    else json_Unmarshal world0 b)
          (bot_Token world0) (bot_GetFile world0) (bot_Send world0).

(** A world like [world0] whose bot API resolves the file id [v1] to a
    voice file and every other id to a picture. *)
Definition world_media : World :=
  mkWorld (uuid_NewString world0) (http_Get world0) (WriteFileInWorkspace world0)
          (json_Unmarshal world0) (bot_Token world0)
          (fun _ id => if decide (id = "v1") then Ok (telegram.mkFile "voice/file_1.oga")
                       else Ok (telegram.mkFile "photos/file_2.jpg"))
          (bot_Send world0).

(** The process right after start-up, user 1001 and the name [ada]
    allowed. *)
Definition st0 : State :=
  mkState {[ 1001 ]} {[ "ada" ]} [] [] ∅ [] [] [].

Definition sample_voice : Message :=
  mkMessage "Ada L (ada)" "123" "8" "" url_voice "" ".oga".
Definition sample_both : Message :=
  mkMessage "Ada L (ada)" "123" "9" "look" url_voice url_image ".jpg".
Definition sample_down : Message :=
  mkMessage "Ada L (ada)" "123" "10" "" url_down "" ".oga".
Definition sample_image : Message :=
  mkMessage "Ada L (ada)" "123" "17" "see" "" url_image ".jpg".
Definition sample_last : Message := mkMessage "Ada L (ada)" "123" "12" "bye" "" "" "".

(** A Unicode fallback that trims nothing, for inputs that are plain
    ASCII and never reach it. *)
Definition ascii_only : Unicode := mkUnicode id id.

Definition update_text : telegram.Update :=
  telegram.mkUpdate
    (Some (telegram.mkMessage 14 (Some (telegram.mkUser 1001 "Ada" "L" "ada"))
             (telegram.mkChat (-100123)) "hello" None None)).

Definition update_anonymous : telegram.Update :=
  telegram.mkUpdate
    (Some (telegram.mkMessage 15 None (telegram.mkChat 123) "hello" None None)).

Definition update_eve : telegram.Update :=
  telegram.mkUpdate
    (Some (telegram.mkMessage 16 (Some (telegram.mkUser 666 "Eve" "X" "eve"))
             (telegram.mkChat 123) "hello"
             (Some (telegram.mkVoice "v9")) None)).

(** A world like [world0] whose bot API cannot resolve any file. *)
Definition world_unresolved : World :=
  mkWorld (uuid_NewString world0) (http_Get world0) (WriteFileInWorkspace world0)
          (json_Unmarshal world0) (bot_Token world0)
          (fun _ _ => Err "Bad Request: file is too big")
          (bot_Send world0).

(** A world like [world0] whose bot API reports a file path with
    directories and several dots. *)
Definition world_traversal : World :=
  mkWorld (uuid_NewString world0) (http_Get world0) (WriteFileInWorkspace world0)
          (json_Unmarshal world0) (bot_Token world0)
          (fun _ _ => Ok (telegram.mkFile "voice/../../etc/file_3.tar.gz"))
          (bot_Send world0).

Definition ada : telegram.User := telegram.mkUser 1001 "Ada" "L" "ada".
Definition eve : telegram.User := telegram.mkUser 666 "Eve" "X" "eve".

(** An event with a voice and a photo payload, and one with neither and
    no text (a sticker, say), both from the allowed user. *)
Definition update_both : telegram.Update :=
  telegram.mkUpdate
    (Some (telegram.mkMessage 9 (Some ada) (telegram.mkChat 123) "look"
             (Some (telegram.mkVoice "v1")) (Some [telegram.mkPhotoSize "p1"]))).

Definition update_sticker : telegram.Update :=
  telegram.mkUpdate
    (Some (telegram.mkMessage 13 (Some ada) (telegram.mkChat 123) "" None None)).

Definition sample_text : Message := mkMessage "Ada L (ada)" "123" "7" "hi <b>" "" "" "".



(** * Properties *)

(** ** The library models on sample inputs *)

Example Ext_oga : filepath.Ext "voice/file_12.oga" = ".oga".
Proof. reflexivity. Qed.

Example Ext_dir_dot : filepath.Ext "a.b/file" = "".
Proof. reflexivity. Qed.

Example ParseInt_123 : strconv.ParseInt "123" 64 = Some 123.
Proof. reflexivity. Qed.

Example ParseInt_abc : strconv.ParseInt "abc" 64 = None.
Proof. reflexivity. Qed.

Example ParseInt_min : strconv.ParseInt "-9223372036854775808" 64 = Some (- 2 ^ 63).
Proof. reflexivity. Qed.

Example ParseInt_range : strconv.ParseInt "9223372036854775808" 64 = None.
Proof. reflexivity. Qed.

Example ParseInt_sign_only : strconv.ParseInt "-" 64 = None.
Proof. reflexivity. Qed.

Example Marshal_sample :
  Marshal sample_text
  = "{" +:+ json.member "user" "Ada L (ada)" +:+ "," +:+ json.member "chatId" "123"
        +:+ "," +:+ json.member "msgId" "7" +:+ ","
        +:+ str dquote +:+ "text" +:+ str dquote +:+ ":" +:+ str dquote
        +:+ "hi " +:+ String backslash "u003cb" +:+ String backslash "u003e" +:+ str dquote
        +:+ "}".
Proof. reflexivity. Qed.

Example fmt_s_sample : fmt.s sample_text = "{Ada L (ada) 123 7 hi <b>   }".
Proof. reflexivity. Qed.

Example quote_line_separator :
  json.appendString true 0
    (String (ascii_of_N 0xE2) (String (ascii_of_N 0x80) (String (ascii_of_N 0xA8) "x")))
  = String backslash "u2028x".
Proof. reflexivity. Qed.

Example quote_bad_byte :
  json.appendString true 0 (String (ascii_of_N 0xFF) "x") = String backslash "ufffdx".
Proof. reflexivity. Qed.

Example quote_e_acute :
  json.appendString true 0 (String (ascii_of_N 0xC3) (String (ascii_of_N 0xA9) "x"))
  = String (ascii_of_N 0xC3) (String (ascii_of_N 0xA9) "x").
Proof. reflexivity. Qed.


(** ** Strings *)

(** Concatenation unfolds under [simpl] again when its first argument
    starts with a constructor. *)
#[local] Arguments String.append !_ _ / : simpl nomatch.

Lemma append_assoc (a b c : string) : (a +:+ b) +:+ c = a +:+ (b +:+ c).
Proof. induction a as [|x a IH]; simpl; [reflexivity | now rewrite IH]. Qed.

Lemma append_empty_r (a : string) : a +:+ "" = a.
Proof. induction a as [|x a IH]; simpl; [reflexivity | now rewrite IH]. Qed.

Lemma contains_refl (s : string) : contains s s.
Proof. exists "", "". simpl. now rewrite append_empty_r. Qed.

Lemma contains_append_l (p s sub : string) : contains s sub -> contains (p +:+ s) sub.
Proof.
  intros (pre & post & ->). exists (p +:+ pre), post.
  now rewrite append_assoc.
Qed.

Lemma contains_append_r (p s sub : string) : contains s sub -> contains (s +:+ p) sub.
Proof.
  intros (pre & post & ->). exists pre, (post +:+ p).
  now rewrite !append_assoc.
Qed.

Lemma contains_join (sep x : string) (l : list string) :
  In x l -> contains (join sep l) x.
Proof.
  induction l as [|y l IH]; intros Hin; [destruct Hin|].
  destruct Hin as [-> | Hin].
  - destruct l; simpl; [apply contains_refl | apply contains_append_r, contains_refl].
  - specialize (IH Hin). destruct l as [|z l]; [destruct Hin|].
    change (join sep (y :: z :: l)) with (y +:+ sep +:+ join sep (z :: l)).
    now apply contains_append_l, contains_append_l.
Qed.

(** A marshalled record is a JSON object: it opens with a brace. *)
Lemma Marshal_brace (m : Message) : exists rest, Marshal m = String "{" rest.
Proof. unfold Marshal. simpl. eauto. Qed.

(** ** The channel *)

Lemma send_all_app (ms q : list Message) :
  (List.length q + List.length ms <= capacity)%nat ->
  send_all ms q = Some (q ++ ms)%list.
Proof.
  revert q. induction ms as [|m ms IH]; intros q Hlen; simpl in *.
  - now rewrite app_nil_r.
  - unfold send. destruct (Nat.ltb_spec (List.length q) capacity) as [_|Hge]; [|lia].
    rewrite IH; [now rewrite <- app_assoc | rewrite length_app; simpl; lia].
Qed.

Lemma send_full (m : Message) (q : list Message) :
  (capacity <= List.length q)%nat -> send m q = None.
Proof.
  intros Hlen. unfold send.
  destruct (Nat.ltb_spec (List.length q) capacity); [lia | reflexivity].
Qed.

(** ** Frame lemmas: what each step leaves alone *)

Section Frames.

Variable W : World.

Lemma uploadToWs_frame (url ext : string) (s : State) :
  let '(path, err, s') := uploadToWs W url ext s in
  path = uuid_NewString W (List.length (fetched s)) +:+ ext
  /\ fetched s' = (fetched s ++ [url])%list
  /\ messageQueue s' = messageQueue s
  /\ log s' = log s
  /\ sent s' = sent s.
Proof.
  unfold uploadToWs.
  destruct (http_Get W _ url) as [resp|e]; [|now simpl].
  destruct (Body resp) as [b|e]; [|now simpl].
  destruct (WriteFileInWorkspace W _ _ b); now simpl.
Qed.

(** [materialize] never touches the queue, takes no record out of it
    (no "Found Message" line) and changes nothing but the text. *)
Lemma materialize_frame (msg : Message) (s : State) :
  let '(r, s') := materialize W msg s in
  messageQueue s' = messageQueue s
  /\ found (log s') = found (log s)
  /\ sent s' = sent s
  /\ match r with
     | Ok m' =>
       User m' = User msg /\ ChatID m' = ChatID msg /\ MsgID m' = MsgID msg
       /\ VoiceURL m' = VoiceURL msg /\ ImageURL m' = ImageURL msg
       /\ FileExt m' = FileExt msg
     | Err _ => True
     end.
Proof.
  unfold materialize.
  destruct (decide (VoiceURL msg <> "")) as [Hv|Hv].
  - pose proof (uploadToWs_frame (VoiceURL msg) (FileExt msg) s) as H.
    destruct (uploadToWs W (VoiceURL msg) (FileExt msg) s) as [[path err] s'].
    destruct H as (_ & _ & Hq & Hl & Hs).
    destruct err; simpl; rewrite ?Hl; unfold found; rewrite ?omap_app; simpl;
      rewrite ?app_nil_r; auto 10.
  - destruct (decide (ImageURL msg <> "")) as [Hi|Hi].
    + pose proof (uploadToWs_frame (ImageURL msg) (FileExt msg) s) as H.
      destruct (uploadToWs W (ImageURL msg) (FileExt msg) s) as [[path err] s'].
      destruct H as (_ & _ & Hq & Hl & Hs).
      destruct err; simpl; rewrite ?Hl; unfold found; rewrite ?omap_app; simpl;
        rewrite ?app_nil_r; auto 10.
    + simpl. auto 10.
Qed.

End Frames.

(** ** The authorization gate *)

(** C2. [isAuthorized] answers [false] for an absent sender, and for a
    present sender it answers [true] exactly when the numeric ID is in
    the allowed-ID set or the user name is in the allowed-name set:
    either credential suffices, and a sender in neither set is refused.
    The function only reads the two sets; it returns a boolean and no
    state. *)
Theorem isAuthorized_spec (s : State) :
  isAuthorized s None = false
  /\ (forall u : telegram.User,
        telegram.ID u ∈ allowedUserIDs s \/ telegram.UserName u ∈ allowedUserNames s ->
        isAuthorized s (Some u) = true)
  /\ (forall u : telegram.User,
        telegram.ID u ∉ allowedUserIDs s ->
        telegram.UserName u ∉ allowedUserNames s ->
        isAuthorized s (Some u) = false).
Proof.
  split; [reflexivity|]. split.
  - intros u [Hid | Hname]; unfold isAuthorized.
    + destruct (decide (telegram.ID u ∈ allowedUserIDs s)); [reflexivity | contradiction].
    + destruct (decide (telegram.ID u ∈ allowedUserIDs s)); [reflexivity|].
      destruct (decide (telegram.UserName u ∈ allowedUserNames s));
        [reflexivity | contradiction].
  - intros u Hid Hname. unfold isAuthorized.
    destruct (decide (telegram.ID u ∈ allowedUserIDs s)); [contradiction|].
    destruct (decide (telegram.UserName u ∈ allowedUserNames s));
      [contradiction | reflexivity].
Qed.

(** The gate on the sample allow-lists: a listed ID under another name,
    a listed name under another ID, and a stranger. *)
Lemma isAuthorized_spec_witness :
  isAuthorized st0 (Some (telegram.mkUser 1001 "A" "B" "other")) = true
  /\ isAuthorized st0 (Some (telegram.mkUser 5 "A" "B" "ada")) = true
  /\ isAuthorized st0 (Some eve) = false.
Proof.
  destruct (isAuthorized_spec st0) as (_ & Hyes & Hno).
  split; [|split].
  - apply Hyes. left. simpl. set_solver.
  - apply Hyes. right. simpl. set_solver.
  - apply Hno; simpl; set_solver.
Defined.

(** ** The response writer *)

Lemma rw_Write_status (data : string) (w : ResponseWriter) :
  status (rw_Write data w) = Some (sent_status w).
Proof. now destruct w as [[c|] b]. Qed.

Lemma rw_Write_body (data : string) (w : ResponseWriter) :
  body (rw_Write data w) = body w +:+ data.
Proof. now destruct w as [[c|] b]. Qed.

Lemma http_Error_body (w : ResponseWriter) (text : string) (code : Z) :
  body (http_Error w text code) = body w +:+ text +:+ nl.
Proof. now destruct w as [[c|] b]. Qed.

(** [http.Error] decides the status only on a response nothing was
    written to. *)
Lemma http_Error_status (w : ResponseWriter) (text : string) (code : Z) :
  status (http_Error w text code) = Some (default code (status w)).
Proof. now destruct w as [[c|] b]. Qed.

Lemma write_all_body (out : list Message) (w : ResponseWriter) :
  body (write_all out w) = body w +:+ concat_strings (map Marshal out).
Proof.
  revert w. induction out as [|m out IH]; intros w; simpl.
  - now rewrite append_empty_r.
  - now rewrite IH, rw_Write_body, append_assoc.
Qed.

Lemma write_all_status (out : list Message) (w : ResponseWriter) :
  status (write_all out w) = match out with [] => status w | _ => Some (sent_status w) end.
Proof.
  destruct out as [|m out]; [reflexivity|]. simpl.
  generalize (rw_Write_status (Marshal m) w).
  generalize (rw_Write (Marshal m) w). clear m.
  induction out as [|m' out IH]; intros w' Hw'; simpl; [assumption|].
  apply IH. rewrite rw_Write_status. unfold sent_status. now rewrite Hw'.
Qed.

(** ** The poll loop *)

Section Poll.

Variable W : World.

(** The loop is its effects followed by its writes. *)
Lemma drain_materialize_all (q : list Message) (s : State) (w : ResponseWriter) :
  drain W q s w =
  let '(out, e, s') := materialize_all W q s in
  (s', match e with
       | None => rw_Write ("No messages" +:+ nl) (write_all out w)
       | Some text => http_Error (write_all out w) text StatusInternalServerError
       end).
Proof.
  revert s w. induction q as [|msg q IH]; intros s w; simpl; [reflexivity|].
  destruct (materialize W msg _) as [[m'|text] s1]; [|reflexivity].
  rewrite IH. now destruct (materialize_all W q s1) as [[out e] s2].
Qed.

(** The loop takes the records out oldest first: the "Found Message"
    lines grow by a prefix of the buffer and the rest stays queued.
    When the loop ends without an error the prefix is the whole buffer
    and every record was handed on; when it ends on an error, the
    records before the failing one were handed on and the failing one
    is gone from the queue. *)
Lemma materialize_all_trace (q : list Message) (s : State) :
  messageQueue s = q ->
  let '(out, e, s') := materialize_all W q s in
  Forall2 delivered (take (List.length out) q) out
  /\ match e with
     | None =>
       List.length out = List.length q
       /\ found (log s') = (found (log s) ++ q)%list
       /\ messageQueue s' = []
     | Some _ =>
       (List.length out < List.length q)%nat
       /\ found (log s') = (found (log s) ++ take (S (List.length out)) q)%list
       /\ messageQueue s' = drop (S (List.length out)) q
     end.
Proof.
  revert s. induction q as [|msg q IH]; intros s Hq; simpl.
  - split; [constructor|]. now rewrite app_nil_r.
  - pose proof (materialize_frame W msg (add_log (LogFound msg) (set_queue q s))) as Hf.
    destruct (materialize W msg _) as [[m'|text] s1] eqn:Hm.
    + destruct Hf as (Hq1 & Hl1 & _ & _).
      specialize (IH s1 Hq1).
      destruct (materialize_all W q s1) as [[out e] s2]. simpl.
      destruct IH as (Hdel & He).
      assert (Hfound : found (log s1) = (found (log s) ++ [msg])%list).
      { rewrite Hl1. simpl. unfold found. now rewrite omap_app. }
      split.
      * constructor; [|assumption].
        unfold materialize in Hm. unfold delivered.
        destruct (decide (VoiceURL msg <> "")).
        -- destruct (uploadToWs W _ _ _) as [[id err] s']. destruct err; [discriminate|].
           injection Hm as <- _. eauto.
        -- destruct (decide (ImageURL msg <> "")).
           ++ destruct (uploadToWs W _ _ _) as [[id err] s']. destruct err; [discriminate|].
              injection Hm as <- _. eauto.
           ++ now injection Hm as <- _.
      * destruct e as [text|]; destruct He as (Hlen & Hfnd & Hrest);
          rewrite Hfnd, Hfound, <- app_assoc; simpl; repeat split; auto; lia.
    + destruct Hf as (Hq1 & Hl1 & _ & _). simpl.
      split; [constructor|]. split; [lia|]. split.
      * rewrite Hl1. simpl. unfold found. rewrite omap_app. simpl. now rewrite take_0.
      * rewrite Hq1. simpl. now rewrite drop_0.
Qed.

(** Records without a locator are handed on as they are, and nothing
    is fetched for them. *)
Lemma materialize_all_plain (q : list Message) (s : State) :
  Forall plain q ->
  exists s', materialize_all W q s = (q, None, s') /\ fetched s' = fetched s.
Proof.
  revert s. induction q as [|msg q IH]; intros s Hall; simpl; [eauto|].
  inversion Hall as [|? ? [Hv Hi] Hall']; subst.
  unfold materialize.
  destruct (decide (VoiceURL msg <> "")); [contradiction|].
  destruct (decide (ImageURL msg <> "")); [contradiction|].
  destruct (IH (add_log (LogFound msg) (set_queue q s)) Hall') as (s' & -> & Hf).
  eauto.
Qed.

End Poll.

(** ** The relay queue *)

(** C1 (as the code has it). Records enqueued one after the other into
    the empty queue (at most [capacity] of them, so that no send has to
    wait) are buffered in that order.  A single poll takes a prefix of
    them out, oldest first, and leaves the rest queued in order.  When
    no materialization fails during the poll, the prefix is the whole
    queue: exactly the enqueued records are taken out, in the order
    enqueued, one JSON object is written for each in that order, and
    the queue is left empty.  Records without attachment are written
    unchanged, whatever the outside does.  A poll of the empty queue
    returns at once: it takes no record, calls nothing and leaves the
    state as it is. *)
Theorem relay_queue_fifo (W : World) (ms : list Message) (s : State) (w : ResponseWriter) :
  (List.length ms <= capacity)%nat ->
  send_all ms [] = Some ms
  /\ (exists k : nat,
        (k <= List.length ms)%nat
        /\ found (log (fst (handleMessage W (set_queue ms s) w)))
           = (found (log s) ++ take k ms)%list
        /\ messageQueue (fst (handleMessage W (set_queue ms s) w)) = drop k ms)
  /\ (forall out s',
        materialize_all W ms (set_queue ms s) = (out, None, s') ->
        handleMessage W (set_queue ms s) w
          = (s', rw_Write ("No messages" +:+ nl) (write_all out w))
        /\ Forall2 delivered ms out
        /\ found (log s') = (found (log s) ++ ms)%list
        /\ messageQueue s' = [])
  /\ (Forall plain ms ->
      exists s',
        handleMessage W (set_queue ms s) w
          = (s', rw_Write ("No messages" +:+ nl) (write_all ms w))
        /\ found (log s') = (found (log s) ++ ms)%list
        /\ messageQueue s' = []
        /\ fetched s' = fetched s)
  /\ handleMessage W (set_queue [] s) w
     = (set_queue [] s, rw_Write ("No messages" +:+ nl) w).
Proof.
  intros Hlen.
  assert (Hdone : forall out s',
             materialize_all W ms (set_queue ms s) = (out, None, s') ->
             handleMessage W (set_queue ms s) w
               = (s', rw_Write ("No messages" +:+ nl) (write_all out w))
             /\ Forall2 delivered ms out
             /\ found (log s') = (found (log s) ++ ms)%list
             /\ messageQueue s' = []).
  { intros out s' Hall.
    pose proof (materialize_all_trace W ms (set_queue ms s) eq_refl) as Htr.
    unfold handleMessage. simpl messageQueue.
    rewrite drain_materialize_all, Hall in *.
    destruct Htr as (Hdel & Hn & Hfound & Hq).
    rewrite Hn, firstn_all in Hdel. auto. }
  split; [|split; [|split; [exact Hdone|split]]].
  - apply (send_all_app ms []). simpl. lia.
  - pose proof (materialize_all_trace W ms (set_queue ms s) eq_refl) as Htr.
    unfold handleMessage. simpl messageQueue. rewrite drain_materialize_all.
    destruct (materialize_all W ms (set_queue ms s)) as [[out e] s'].
    destruct Htr as (_ & Htr). simpl fst.
    destruct e as [text|].
    + destruct Htr as (Hlt & Hfound & Hq).
      exists (S (List.length out)). simpl in Hfound. auto with lia.
    + destruct Htr as (_ & Hfound & Hq).
      exists (List.length ms). rewrite firstn_all, drop_all. simpl in Hfound. auto.
  - intros Hplain.
    destruct (materialize_all_plain W ms (set_queue ms s) Hplain) as (s' & Hall & Hf).
    exists s'. destruct (Hdone ms s' Hall) as (H1 & _ & H3 & H4). auto.
  - reflexivity.
Qed.

(** Three records, the second with a voice attachment, in the sample
    world: enqueued, then polled once.  The records are taken out and
    written in the order enqueued. *)
Lemma relay_queue_fifo_witness :
  (List.length [sample_text; sample_voice; sample_last] <= capacity)%nat
  /\ send_all [sample_text; sample_voice; sample_last] []
     = Some [sample_text; sample_voice; sample_last]
  /\ found (log (fst (handleMessage world0
                        (set_queue [sample_text; sample_voice; sample_last] st0) fresh)))
     = [sample_text; sample_voice; sample_last]
  /\ messageQueue (fst (handleMessage world0
                          (set_queue [sample_text; sample_voice; sample_last] st0) fresh))
     = []
  /\ body (snd (handleMessage world0
                  (set_queue [sample_text; sample_voice; sample_last] st0) fresh))
     = Marshal sample_text
         +:+ Marshal (set_Text (voice_text "f0.oga" sample_voice) sample_voice)
         +:+ Marshal sample_last
         +:+ "No messages" +:+ nl.
Proof.
  assert (Hlen : (List.length [sample_text; sample_voice; sample_last] <= capacity)%nat)
    by (vm_compute; lia).
  destruct (relay_queue_fifo world0 [sample_text; sample_voice; sample_last] st0 fresh Hlen)
    as (Hsend & _ & Hdone & _).
  destruct (Hdone [sample_text; set_Text (voice_text "f0.oga" sample_voice) sample_voice;
                   sample_last]
              (snd (materialize_all world0 [sample_text; sample_voice; sample_last]
                      (set_queue [sample_text; sample_voice; sample_last] st0)))
              eq_refl)
    as (Hh & _ & Hfound & Hq).
  split; [exact Hlen|]. split; [exact Hsend|].
  rewrite Hh. split; [exact Hfound|]. split; [exact Hq|].
  vm_compute. reflexivity.
Defined.

(** The claim as the specification words it fails when a
    materialization fails: three records are enqueued, the second one's
    voice file cannot be fetched.  The poll writes the first record
    only, the second is taken out and lost, and the third stays queued:
    the poll has not returned exactly the enqueued records. *)
Lemma relay_queue_fifo_counterexample :
  send_all [sample_text; sample_down; sample_last] []
  = Some [sample_text; sample_down; sample_last]
  /\ found (log (fst (handleMessage world0
                        (set_queue [sample_text; sample_down; sample_last] st0) fresh)))
     = [sample_text; sample_down]
  /\ messageQueue (fst (handleMessage world0
                          (set_queue [sample_text; sample_down; sample_last] st0) fresh))
     = [sample_last]
  /\ body (snd (handleMessage world0
                  (set_queue [sample_text; sample_down; sample_last] st0) fresh))
     = Marshal sample_text +:+ "Failed to upload voice file" +:+ nl.
Proof. vm_compute. repeat split; reflexivity. Qed.

(** ** The poll endpoint *)

(** C3 (as the code has it). When no materialization fails, the
    response of [GET /message] has status 200 and its body is one JSON
    object per drained and annotated record, in the order drained,
    followed by the literal text [No messages] and a line feed: the
    literal ends every such body.  The body is the literal alone
    exactly when the queue was empty at poll time. *)
Theorem poll_body (W : World) (s : State) (out : list Message) (s' : State) :
  materialize_all W (messageQueue s) s = (out, None, s') ->
  status (snd (handleMessage W s fresh)) = Some StatusOK
  /\ body (snd (handleMessage W s fresh))
     = concat_strings (map Marshal out) +:+ "No messages" +:+ nl
  /\ Forall2 delivered (messageQueue s) out
  /\ (body (snd (handleMessage W s fresh)) = "No messages" +:+ nl
      <-> messageQueue s = []).
Proof.
  intros Hall.
  pose proof (materialize_all_trace W (messageQueue s) s eq_refl) as Htr.
  unfold handleMessage. rewrite drain_materialize_all, Hall in *. simpl snd.
  destruct Htr as (Hdel & Hn & _ & _). rewrite Hn, firstn_all in Hdel.
  rewrite rw_Write_status, rw_Write_body, write_all_body. simpl body.
  assert (Hst : sent_status (write_all out fresh) = StatusOK).
  { unfold sent_status. rewrite write_all_status. now destruct out. }
  rewrite Hst. repeat split; auto.
  - intros Hbody. destruct (messageQueue s) as [|m q]; [reflexivity|].
    inversion Hdel as [|? m' ? out' _ _]; subst.
    destruct (Marshal_brace m') as (rest & Hm').
    cbn [map concat_strings] in Hbody. rewrite Hm' in Hbody.
    simpl in Hbody. discriminate Hbody.
  - intros Hq. rewrite Hq in Hdel. now inversion Hdel.
Qed.

Lemma poll_body_witness :
  materialize_all world0 (messageQueue (set_queue [sample_text; sample_voice] st0))
    (set_queue [sample_text; sample_voice] st0)
  = ([sample_text; set_Text (voice_text "f0.oga" sample_voice) sample_voice], None,
     snd (materialize_all world0 [sample_text; sample_voice]
            (set_queue [sample_text; sample_voice] st0)))
  /\ body (snd (handleMessage world0 (set_queue [sample_text; sample_voice] st0) fresh))
     = concat_strings
         (map Marshal [sample_text; set_Text (voice_text "f0.oga" sample_voice) sample_voice])
       +:+ "No messages" +:+ nl.
Proof.
  assert (H : materialize_all world0
                (messageQueue (set_queue [sample_text; sample_voice] st0))
                (set_queue [sample_text; sample_voice] st0)
              = ([sample_text; set_Text (voice_text "f0.oga" sample_voice) sample_voice],
                 None,
                 snd (materialize_all world0 [sample_text; sample_voice]
                        (set_queue [sample_text; sample_voice] st0))))
    by reflexivity.
  split; [exact H|].
  exact (proj1 (proj2 (poll_body world0 _ _ _ H))).
Defined.

(** The claim as the specification words it fails on a queue of one
    plain record: the response is a 200, the queue was not empty, and
    yet the body holds the [No messages] indicator; the body is neither
    the JSON objects alone nor the indicator alone. *)
Lemma poll_body_counterexample :
  messageQueue (set_queue [sample_text] st0) <> []
  /\ sent_status (snd (handleMessage world0 (set_queue [sample_text] st0) fresh)) = StatusOK
  /\ contains (body (snd (handleMessage world0 (set_queue [sample_text] st0) fresh)))
       ("No messages" +:+ nl)
  /\ body (snd (handleMessage world0 (set_queue [sample_text] st0) fresh))
     <> concat_strings (map Marshal [sample_text])
  /\ body (snd (handleMessage world0 (set_queue [sample_text] st0) fresh))
     <> "No messages" +:+ nl.
Proof.
  split; [discriminate|]. split; [reflexivity|]. split; [|split].
  - exists (Marshal sample_text), "". reflexivity.
  - vm_compute. discriminate.
  - vm_compute. discriminate.
Qed.

(** When a materialization fails, the handler answers with
    [http.Error]: the text of the failure follows whatever was written
    before, the failing record is neither written nor put back, and the
    records behind it stay queued.  The status is 500 only when nothing
    was written before the failure. *)
Lemma poll_abort (W : World) (s : State) (out : list Message) (text : string) (s' : State) :
  materialize_all W (messageQueue s) s = (out, Some text, s') ->
  fst (handleMessage W s fresh) = s'
  /\ status (snd (handleMessage W s fresh))
     = Some (match out with [] => StatusInternalServerError | _ => StatusOK end)
  /\ body (snd (handleMessage W s fresh)) = concat_strings (map Marshal out) +:+ text +:+ nl
  /\ messageQueue s' = drop (S (List.length out)) (messageQueue s)
  /\ found (log s') = (found (log s) ++ take (S (List.length out)) (messageQueue s))%list.
Proof.
  intros Hall.
  pose proof (materialize_all_trace W (messageQueue s) s eq_refl) as Htr.
  unfold handleMessage. rewrite drain_materialize_all, Hall in *. simpl fst; simpl snd.
  destruct Htr as (_ & _ & Hfound & Hq).
  rewrite http_Error_status, http_Error_body, write_all_body, write_all_status.
  repeat split; auto. now destruct out.
Qed.

(** C7 (the code at the failing input). The queue holds a plain record,
    a record whose voice file cannot be fetched, and a third record.
    The handler writes the first record, which sends the header with
    status 200; the [WriteHeader(500)] of [http.Error] comes too late
    and the client sees a 200 whose body is the first record followed
    by the error text.  The failing record is lost and the third one
    stays queued. *)
Theorem poll_abort_after_write :
  sent_status (snd (handleMessage world0
                      (set_queue [sample_text; sample_down; sample_last] st0) fresh))
  = StatusOK
  /\ body (snd (handleMessage world0
                  (set_queue [sample_text; sample_down; sample_last] st0) fresh))
     = Marshal sample_text +:+ "Failed to upload voice file" +:+ nl
  /\ messageQueue (fst (handleMessage world0
                          (set_queue [sample_text; sample_down; sample_last] st0) fresh))
     = [sample_last].
Proof. vm_compute. repeat split; reflexivity. Qed.

(** ** The attachment materializer *)

(** The exits of [uploadToWs], one by one. *)
Lemma uploadToWs_cases (W : World) (url ext : string) (s : State) :
  let n := List.length (fetched s) in
  let path := uuid_NewString W n +:+ ext in
  fst (fst (uploadToWs W url ext s)) = path
  /\ fetched (snd (uploadToWs W url ext s)) = (fetched s ++ [url])%list
  /\ match http_Get W n url with
     | Err e =>
       snd (fst (uploadToWs W url ext s)) = Some e
       /\ workspace (snd (uploadToWs W url ext s)) = workspace s
     | Ok resp =>
       match Body resp with
       | Err e =>
         snd (fst (uploadToWs W url ext s)) = Some e
         /\ workspace (snd (uploadToWs W url ext s)) = workspace s
       | Ok b =>
         match WriteFileInWorkspace W n path b with
         | Some e =>
           snd (fst (uploadToWs W url ext s)) = Some e
           /\ workspace (snd (uploadToWs W url ext s)) = workspace s
         | None =>
           snd (fst (uploadToWs W url ext s)) = None
           /\ workspace (snd (uploadToWs W url ext s)) = <[path := b]> (workspace s)
         end
       end
     end.
Proof.
  unfold uploadToWs. cbv zeta.
  destruct (http_Get W _ url) as [resp|e]; [|now simpl].
  destruct (Body resp) as [b|e]; [|now simpl].
  destruct (WriteFileInWorkspace W _ _ b); now simpl.
Qed.

(** C5 (as the code has it). [uploadToWs] reports an error to its
    caller when [http.Get] fails, when reading the body fails and when
    the workspace write fails, and in each case nothing is stored.  The
    status code of the response is not looked at: when the fetch
    returns a response, of any status, whose body can be read and
    written, the call returns no error and the body is the stored
    file. *)
Theorem uploadToWs_errors (W : World) (url ext : string) (s : State) :
  let n := List.length (fetched s) in
  let path := uuid_NewString W n +:+ ext in
  (forall e, http_Get W n url = Err e ->
             snd (fst (uploadToWs W url ext s)) = Some e
             /\ workspace (snd (uploadToWs W url ext s)) = workspace s)
  /\ (forall resp e, http_Get W n url = Ok resp -> Body resp = Err e ->
                     snd (fst (uploadToWs W url ext s)) = Some e
                     /\ workspace (snd (uploadToWs W url ext s)) = workspace s)
  /\ (forall resp b e,
         http_Get W n url = Ok resp -> Body resp = Ok b ->
         WriteFileInWorkspace W n path b = Some e ->
         snd (fst (uploadToWs W url ext s)) = Some e
         /\ workspace (snd (uploadToWs W url ext s)) = workspace s)
  /\ (forall resp b,
         http_Get W n url = Ok resp -> Body resp = Ok b ->
         WriteFileInWorkspace W n path b = None ->
         uploadToWs W url ext s = (path, None, add_file path b (add_fetched url s))).
Proof.
  cbv zeta. pose proof (uploadToWs_cases W url ext s) as (_ & _ & H).
  split; [|split; [|split]].
  - intros e He. now rewrite He in H.
  - intros resp e Hr Hb. now rewrite Hr, Hb in H.
  - intros resp b e Hr Hb Hw. now rewrite Hr, Hb, Hw in H.
  - intros resp b Hr Hb Hw. unfold uploadToWs. now rewrite Hr, Hb, Hw.
Qed.

(** In the sample world the host [down.example] refuses the
    connection: the error of [http.Get] is what the caller gets. *)
Lemma uploadToWs_errors_witness :
  http_Get world0 0 url_down = Err "dial tcp: connection refused"
  /\ snd (fst (uploadToWs world0 url_down ".oga" st0)) = Some "dial tcp: connection refused".
Proof.
  assert (H : http_Get world0 0 url_down = Err "dial tcp: connection refused")
    by reflexivity.
  split; [exact H|].
  exact (proj1 (proj1 (uploadToWs_errors world0 url_down ".oga" st0) _ H)).
Defined.

(** The claim as the specification words it fails on a response with
    status 404: the fetch of [url_missing] in the sample world returns
    no error, and the error page is stored as the file. *)
Lemma uploadToWs_counterexample :
  (exists b, http_Get world0 0 url_missing = Ok (mkResponse 404 (Ok b)))
  /\ snd (fst (uploadToWs world0 url_missing ".oga" st0)) = None
  /\ workspace (snd (uploadToWs world0 url_missing ".oga" st0)) !! "f0.oga"
     = Some "Not Found".
Proof.
  split; [eexists; reflexivity|]. split; [reflexivity|]. vm_compute. reflexivity.
Qed.

Section Materialize.

Variable W : World.

(** What a successful [materialize] returns, case by case. *)
Lemma materialize_Ok (msg m' : Message) (s s' : State) :
  materialize W msg s = (Ok m', s') ->
  let id := uuid_NewString W (List.length (fetched s)) +:+ FileExt msg in
  if decide (VoiceURL msg <> "") then
    m' = set_Text (voice_text id msg) msg
    /\ fetched s' = (fetched s ++ [VoiceURL msg])%list
    /\ (exists b, workspace s' = <[id := b]> (workspace s))
  else if decide (ImageURL msg <> "") then
    m' = set_Text (image_text id msg) msg
    /\ fetched s' = (fetched s ++ [ImageURL msg])%list
    /\ (exists b, workspace s' = <[id := b]> (workspace s))
  else m' = msg /\ s' = s.
Proof.
  unfold materialize. cbv zeta.
  destruct (decide (VoiceURL msg <> "")) as [Hv|Hv].
  - pose proof (uploadToWs_cases W (VoiceURL msg) (FileExt msg) s) as (Hp & Hf & Hw).
    destruct (uploadToWs W (VoiceURL msg) (FileExt msg) s) as [[path err] s1].
    simpl in Hp, Hf, Hw. destruct err as [e|]; [discriminate|].
    intros [= <- <-]. subst path. repeat split; auto.
    destruct (http_Get W _ _) as [resp|e]; [|now destruct Hw].
    destruct (Body resp) as [b|e]; [|now destruct Hw].
    destruct (WriteFileInWorkspace W _ _ b); [now destruct Hw|].
    exists b. now destruct Hw.
  - destruct (decide (ImageURL msg <> "")) as [Hi|Hi].
    + pose proof (uploadToWs_cases W (ImageURL msg) (FileExt msg) s) as (Hp & Hf & Hw).
      destruct (uploadToWs W (ImageURL msg) (FileExt msg) s) as [[path err] s1].
      simpl in Hp, Hf, Hw. destruct err as [e|]; [discriminate|].
      intros [= <- <-]. subst path. repeat split; auto.
      destruct (http_Get W _ _) as [resp|e]; [|now destruct Hw].
      destruct (Body resp) as [b|e]; [|now destruct Hw].
      destruct (WriteFileInWorkspace W _ _ b); [now destruct Hw|].
      exists b. now destruct Hw.
    + now intros [= <- <-].
Qed.

(** The original text sits inside the serialized record. *)
Lemma fmt_s_Text (msg : Message) :
  fmt.s msg
  = ("{" +:+ User msg +:+ " " +:+ ChatID msg +:+ " " +:+ MsgID msg +:+ " ")
      +:+ Text msg
      +:+ (" " +:+ VoiceURL msg +:+ " " +:+ ImageURL msg +:+ " " +:+ FileExt msg +:+ "}").
Proof. unfold fmt.s. now rewrite !append_assoc. Qed.

End Materialize.

(** C4 (as the code has it). A successful materialization changes the
    text of the record and nothing else: the voice and image locators
    and the file extension are on the serialized record as they were on
    the queued one, so a locator that was set is written to the
    response as its own JSON member. *)
Theorem materialize_keeps_locators (W : World) (msg m' : Message) (s s' : State) :
  materialize W msg s = (Ok m', s') ->
  (User m' = User msg /\ ChatID m' = ChatID msg /\ MsgID m' = MsgID msg
   /\ VoiceURL m' = VoiceURL msg /\ ImageURL m' = ImageURL msg
   /\ FileExt m' = FileExt msg)
  /\ (VoiceURL msg <> "" ->
      contains (Marshal m') (json.member "voiceURL" (VoiceURL msg)))
  /\ (ImageURL msg <> "" ->
      contains (Marshal m') (json.member "imageURL" (ImageURL msg))).
Proof.
  intros Hm. pose proof (materialize_frame W msg s) as Hf. rewrite Hm in Hf.
  destruct Hf as (_ & _ & _ & Hfields). split; [exact Hfields|].
  destruct Hfields as (_ & _ & _ & Hv & Hi & _).
  split; intros Hne; unfold Marshal;
    apply contains_append_l, contains_append_r, contains_join;
    rewrite !in_app_iff; simpl; unfold json.omitempty at 3 4; rewrite Hv, Hi.
  - destruct (decide (VoiceURL msg = "")); [contradiction|]. simpl. auto 10.
  - destruct (decide (ImageURL msg = "")); [contradiction|]. simpl. auto 10.
Qed.

Lemma materialize_keeps_locators_witness :
  VoiceURL (set_Text (voice_text "f0.oga" sample_voice) sample_voice) = url_voice
  /\ contains (Marshal (set_Text (voice_text "f0.oga" sample_voice) sample_voice))
       (json.member "voiceURL" url_voice).
Proof.
  destruct (materialize_keeps_locators world0 sample_voice
              (set_Text (voice_text "f0.oga" sample_voice) sample_voice)
              st0 (snd (materialize world0 sample_voice st0)) eq_refl)
    as ((_ & _ & _ & Hv & _) & Hc & _).
  split; [exact Hv|]. apply Hc. discriminate.
Defined.

(** The claim as the specification words it fails on the sample voice
    record: its materialization succeeds, and the record that is
    serialized still carries the voice locator. *)
Lemma locators_cleared_counterexample :
  exists m' s',
    materialize world0 sample_voice st0 = (Ok m', s')
    /\ VoiceURL sample_voice <> ""
    /\ VoiceURL m' = url_voice
    /\ VoiceURL m' <> "".
Proof.
  eexists; eexists. split; [reflexivity|]. repeat split; discriminate.
Qed.

(** C6. After the successful materialization of a record with a voice
    locator and no image locator, the text is the informational marker,
    which names the attachment kind (a voice file) and the path the file
    was stored under in the workspace, followed by a line feed and the
    message marker around the record as it was, printed field by field:
    the original text stands inside the message marker. *)
Theorem voice_annotation (W : World) (msg m' : Message) (s s' : State) :
  VoiceURL msg <> "" ->
  ImageURL msg = "" ->
  materialize W msg s = (Ok m', s') ->
  exists voiceID pre post,
    voiceID = uuid_NewString W (List.length (fetched s)) +:+ FileExt msg
    /\ (exists b, workspace s' = <[voiceID := b]> (workspace s))
    /\ Text m'
       = "<INFO>This message contains a voice file which you can find in the workspace at "
           +:+ voiceID +:+ "<INFO>" +:+ nl
           +:+ "<MESSAGE>" +:+ (pre +:+ Text msg +:+ post) +:+ "</MESSAGE>"
    /\ pre +:+ Text msg +:+ post = fmt.s msg.
Proof.
  intros Hv _ Hm. apply materialize_Ok in Hm. cbv zeta in Hm.
  destruct (decide (VoiceURL msg <> "")); [|contradiction].
  destruct Hm as (-> & _ & Hws).
  eexists; eexists; eexists. split; [reflexivity|]. split; [exact Hws|].
  rewrite <- append_assoc, <- fmt_s_Text. split; reflexivity.
Qed.

Lemma voice_annotation_witness :
  VoiceURL sample_voice <> ""
  /\ ImageURL sample_voice = ""
  /\ exists voiceID pre post,
       voiceID = "f0.oga"
       /\ (exists b, workspace (snd (materialize world0 sample_voice st0))
                     = <[voiceID := b]> (workspace st0))
       /\ Text (set_Text (voice_text "f0.oga" sample_voice) sample_voice)
          = "<INFO>This message contains a voice file which you can find in the workspace at "
              +:+ voiceID +:+ "<INFO>" +:+ nl
              +:+ "<MESSAGE>" +:+ (pre +:+ Text sample_voice +:+ post) +:+ "</MESSAGE>"
       /\ pre +:+ Text sample_voice +:+ post = fmt.s sample_voice.
Proof.
  assert (Hv : VoiceURL sample_voice <> "") by discriminate.
  split; [exact Hv|]. split; [reflexivity|].
  exact (voice_annotation world0 sample_voice
           (set_Text (voice_text "f0.oga" sample_voice) sample_voice)
           st0 (snd (materialize world0 sample_voice st0)) Hv eq_refl eq_refl).
Defined.

(** ** The update loop *)

Lemma Link_nonempty (f : telegram.File) (token : string) : telegram.Link f token <> "".
Proof. unfold telegram.Link. simpl. discriminate. Qed.

Section Listener.

Variable W : World.

Lemma resolveVoice_Some (um : telegram.Message) (m m1 : Message) (s s1 : State) :
  resolveVoice W um m s = (Some m1, s1) ->
  messageQueue s1 = messageQueue s
  /\ match telegram.m_Voice um with
     | None => m1 = m /\ resolved s1 = resolved s
     | Some v =>
       exists f,
         bot_GetFile W (List.length (resolved s)) (telegram.Voice_FileID v) = Ok f
         /\ m1 = set_Voice (telegram.Link f (bot_Token W))
                           (filepath.Ext (telegram.FilePath f)) m
         /\ resolved s1 = (resolved s ++ [telegram.Voice_FileID v])%list
     end.
Proof.
  unfold resolveVoice, GetFile.
  destruct (telegram.m_Voice um) as [v|]; [|now intros [= <- <-]].
  simpl. destruct (bot_GetFile W _ _) as [f|e]; [|discriminate].
  intros [= <- <-]. simpl. eauto.
Qed.

Lemma resolvePhoto_Kept (um : telegram.Message) (m1 m : Message) (s1 s2 : State) :
  resolvePhoto W um m1 s1 = Kept m s2 ->
  messageQueue s2 = messageQueue s1
  /\ match telegram.m_Photo um with
     | None => m = m1
     | Some photos =>
       exists p ps f,
         photos = p :: ps
         /\ bot_GetFile W (List.length (resolved s1)) (telegram.Photo_FileID p) = Ok f
         /\ m = set_Image (telegram.Link f (bot_Token W))
                          (filepath.Ext (telegram.FilePath f)) m1
     end.
Proof.
  unfold resolvePhoto, GetFile.
  destruct (telegram.m_Photo um) as [[|p ps]|]; [discriminate| |now intros [= <- <-]].
  simpl. destruct (bot_GetFile W _ _) as [f|e] eqn:Hget; [|discriminate].
  intros [= <- <-]. simpl. eauto 10.
Qed.

(** An update that ends in the queue: its sender is present and
    authorized, both attachment steps went through, and the record is
    appended behind those already buffered. *)
Lemma listen_Enqueued (update : telegram.Update) (um : telegram.Message) (s s' : State) :
  telegram.u_Message update = Some um ->
  listen W update s = Enqueued s' ->
  exists usr m1 s1 m s2,
    telegram.m_From um = Some usr
    /\ isAuthorized s (Some usr) = true
    /\ resolveVoice W um (newRecord um usr) (add_log (LogInfo "Received a Message") s)
       = (Some m1, s1)
    /\ resolvePhoto W um m1 s1 = Kept m s2
    /\ messageQueue s' = (messageQueue s ++ [m])%list.
Proof.
  intros Hum. unfold listen, telegram.SentFrom. rewrite Hum.
  destruct (telegram.m_From um) as [usr|]; [|now destruct (negb _)].
  destruct (isAuthorized s (Some usr)) eqn:Hauth; simpl; [|discriminate].
  pose proof (resolveVoice_Some um (newRecord um usr)) as Hv.
  destruct (resolveVoice W um _ _) as [[m1|] s1] eqn:Hrv; [|discriminate].
  specialize (Hv m1 _ s1 Hrv). destruct Hv as (Hq1 & _).
  pose proof (resolvePhoto_Kept um m1) as Hp.
  destruct (resolvePhoto W um m1 s1) as [m s2| |] eqn:Hrp; try discriminate.
  specialize (Hp m s1 s2 Hrp). destruct Hp as (Hq2 & _).
  unfold send. destruct (_ <? _)%nat; [|discriminate].
  intros [= <-]. exists usr, m1, s1, m, s2. simpl.
  rewrite Hq2, Hq1. auto.
Qed.

(** For a record with a voice locator the poll fetches the voice URL,
    and only it, whatever the image locator is. *)
Lemma materialize_voice_first (msg : Message) (s : State) :
  VoiceURL msg <> "" ->
  fetched (snd (materialize W msg s)) = (fetched s ++ [VoiceURL msg])%list
  /\ match fst (materialize W msg s) with
     | Ok m' =>
       Text m' = voice_text (uuid_NewString W (List.length (fetched s)) +:+ FileExt msg) msg
     | Err text => text = "Failed to upload voice file"
     end.
Proof.
  intros Hv. unfold materialize.
  destruct (decide (VoiceURL msg <> "")); [|contradiction].
  pose proof (uploadToWs_frame W (VoiceURL msg) (FileExt msg) s) as Hf.
  destruct (uploadToWs W (VoiceURL msg) (FileExt msg) s) as [[path err] s1].
  destruct Hf as (-> & Hf & _). now destruct err.
Qed.

End Listener.

(** What [listen] does with an update that carries a voice and a photo
    payload, from a sender who passes the gate, when the bot API
    resolves both files and the queue has room. *)
Lemma listen_voice_and_photo (W : World) (update : telegram.Update)
      (um : telegram.Message) (usr : telegram.User) (v : telegram.Voice)
      (p : telegram.PhotoSize) (ps : list telegram.PhotoSize)
      (fv fp : telegram.File) (s : State) :
  telegram.u_Message update = Some um ->
  telegram.m_From um = Some usr ->
  isAuthorized s (Some usr) = true ->
  telegram.m_Voice um = Some v ->
  telegram.m_Photo um = Some (p :: ps) ->
  bot_GetFile W (List.length (resolved s)) (telegram.Voice_FileID v) = Ok fv ->
  bot_GetFile W (S (List.length (resolved s))) (telegram.Photo_FileID p) = Ok fp ->
  (List.length (messageQueue s) < capacity)%nat ->
  exists s' : State,
    listen W update s = Enqueued s'
    /\ messageQueue s'
       = (messageQueue s
            ++ [mkMessage
                  (telegram.FirstName usr +:+ " " +:+ telegram.LastName usr
                     +:+ " (" +:+ telegram.UserName usr +:+ ")")
                  (fmt.d (telegram.Chat_ID (telegram.m_Chat um)))
                  (fmt.d (telegram.m_MessageID um))
                  (telegram.m_Text um)
                  (telegram.Link fv (bot_Token W))
                  (telegram.Link fp (bot_Token W))
                  (filepath.Ext (telegram.FilePath fp))])%list
    /\ resolved s'
       = (resolved s ++ [telegram.Voice_FileID v; telegram.Photo_FileID p])%list
    /\ fetched s' = fetched s.
Proof.
  intros Hum Hfrom Hauth Hv Hp Hgv Hgp Hroom.
  unfold listen, telegram.SentFrom. rewrite Hum, Hfrom, Hauth. simpl.
  unfold resolveVoice, GetFile. rewrite Hv. simpl. rewrite Hgv.
  unfold resolvePhoto, GetFile. rewrite Hp. simpl.
  rewrite length_app. simpl. rewrite Nat.add_1_r, Hgp. simpl.
  unfold send. destruct (Nat.ltb_spec (List.length (messageQueue s)) capacity); [|lia].
  eexists. split; [reflexivity|]. simpl. rewrite <- app_assoc. auto.
Qed.

(** What the poll does with a record that has a voice locator,
    whatever its image locator: one fetch, of the voice URL; then the
    voice annotation or the voice error. *)
Lemma materialize_voice_cases (W : World) (msg : Message) (s : State) :
  VoiceURL msg <> "" ->
  fetched (snd (materialize W msg s)) = (fetched s ++ [VoiceURL msg])%list
  /\ match http_Get W (List.length (fetched s)) (VoiceURL msg) with
     | Err _ => fst (materialize W msg s) = Err "Failed to upload voice file"
     | Ok resp =>
       match Body resp with
       | Err _ => fst (materialize W msg s) = Err "Failed to upload voice file"
       | Ok b =>
         match WriteFileInWorkspace W (List.length (fetched s))
                 (uuid_NewString W (List.length (fetched s)) +:+ FileExt msg) b with
         | Some _ => fst (materialize W msg s) = Err "Failed to upload voice file"
         | None =>
           fst (materialize W msg s)
           = Ok (set_Text
                   ("<INFO>This message contains a voice file which you can find in the workspace at "
                      +:+ (uuid_NewString W (List.length (fetched s)) +:+ FileExt msg)
                      +:+ "<INFO>" +:+ nl +:+ "<MESSAGE>" +:+ fmt.s msg +:+ "</MESSAGE>")
                   msg)
           /\ workspace (snd (materialize W msg s))
              = <[uuid_NewString W (List.length (fetched s)) +:+ FileExt msg := b]>
                  (workspace s)
         end
       end
     end.
Proof.
  intros Hv. unfold materialize.
  destruct (decide (VoiceURL msg <> "")); [|contradiction].
  pose proof (uploadToWs_cases W (VoiceURL msg) (FileExt msg) s) as (Hp & Hf & Hw).
  destruct (uploadToWs W (VoiceURL msg) (FileExt msg) s) as [[path err] s1].
  simpl in Hp, Hf, Hw. subst path.
  destruct (http_Get W _ _) as [resp|e].
  - destruct (Body resp) as [b|e].
    + destruct (WriteFileInWorkspace W _ _ b); destruct Hw as (-> & Hw); simpl; auto.
    + destruct Hw as (-> & Hw). simpl. auto.
  - destruct Hw as (-> & Hw). simpl. auto.
Qed.

(** C10. A record that carries both a voice and an image locator is
    materialized as a voice message: the poll fetches the voice URL and
    nothing else, so the image URL is not fetched; when fetch, read and
    write go through, the text becomes the annotation that speaks of a
    voice file, naming the path the voice content was stored under, and
    otherwise the request ends with the voice error.  The listener
    produces such a record from an event with both a voice and a photo
    payload: it resolves the voice's file id, then the first photo
    size's file id, stores one link each, and the extension it stores
    is the one of the photo's path, which overwrites the voice's and is
    therefore the extension of the stored voice file. *)
Theorem voice_before_image (W : World) :
  (forall (msg : Message) (s : State),
      VoiceURL msg <> "" -> ImageURL msg <> "" ->
      fetched (snd (materialize W msg s)) = (fetched s ++ [VoiceURL msg])%list
      /\ match http_Get W (List.length (fetched s)) (VoiceURL msg) with
         | Err _ => fst (materialize W msg s) = Err "Failed to upload voice file"
         | Ok resp =>
           match Body resp with
           | Err _ => fst (materialize W msg s) = Err "Failed to upload voice file"
           | Ok b =>
             match WriteFileInWorkspace W (List.length (fetched s))
                     (uuid_NewString W (List.length (fetched s)) +:+ FileExt msg) b with
             | Some _ => fst (materialize W msg s) = Err "Failed to upload voice file"
             | None =>
               fst (materialize W msg s)
               = Ok (set_Text
                       ("<INFO>This message contains a voice file which you can find in the workspace at "
                          +:+ (uuid_NewString W (List.length (fetched s)) +:+ FileExt msg)
                          +:+ "<INFO>" +:+ nl +:+ "<MESSAGE>" +:+ fmt.s msg +:+ "</MESSAGE>")
                       msg)
               /\ workspace (snd (materialize W msg s))
                  = <[uuid_NewString W (List.length (fetched s)) +:+ FileExt msg := b]>
                      (workspace s)
             end
           end
         end)
  /\ (forall (update : telegram.Update) (um : telegram.Message) (usr : telegram.User)
             (v : telegram.Voice) (p : telegram.PhotoSize) (ps : list telegram.PhotoSize)
             (fv fp : telegram.File) (s : State),
         telegram.u_Message update = Some um ->
         telegram.m_From um = Some usr ->
         isAuthorized s (Some usr) = true ->
         telegram.m_Voice um = Some v ->
         telegram.m_Photo um = Some (p :: ps) ->
         bot_GetFile W (List.length (resolved s)) (telegram.Voice_FileID v) = Ok fv ->
         bot_GetFile W (S (List.length (resolved s))) (telegram.Photo_FileID p) = Ok fp ->
         (List.length (messageQueue s) < capacity)%nat ->
         exists s' : State,
           listen W update s = Enqueued s'
           /\ messageQueue s'
              = (messageQueue s
                   ++ [mkMessage
                         (telegram.FirstName usr +:+ " " +:+ telegram.LastName usr
                            +:+ " (" +:+ telegram.UserName usr +:+ ")")
                         (fmt.d (telegram.Chat_ID (telegram.m_Chat um)))
                         (fmt.d (telegram.m_MessageID um))
                         (telegram.m_Text um)
                         ("https://api.telegram.org/file/bot" +:+ bot_Token W +:+ "/"
                            +:+ telegram.FilePath fv)
                         ("https://api.telegram.org/file/bot" +:+ bot_Token W +:+ "/"
                            +:+ telegram.FilePath fp)
                         (filepath.Ext (telegram.FilePath fp))])%list
           /\ resolved s'
              = (resolved s ++ [telegram.Voice_FileID v; telegram.Photo_FileID p])%list
           /\ fetched s' = fetched s).
Proof.
  split.
  - intros msg s Hv _. now apply materialize_voice_cases.
  - intros update um usr v p ps fv fp s. apply listen_voice_and_photo.
Qed.

(** An event with a voice ([v1], resolved to an [.oga] file) and a
    photo ([p1], resolved to a [.jpg] file): the record the listener
    enqueues has both links and the extension of the photo; the poll
    then fetches the voice link only, stores its content under a name
    with the photo's extension and writes the voice annotation. *)
Lemma voice_before_image_witness :
  (exists s' : State,
      listen world_media update_both st0 = Enqueued s'
      /\ messageQueue s'
         = [mkMessage "Ada L (ada)" "123" "9" "look"
              "https://api.telegram.org/file/botTOKEN/voice/file_1.oga"
              "https://api.telegram.org/file/botTOKEN/photos/file_2.jpg"
              ".jpg"]
      /\ resolved s' = ["v1"; "p1"])
  /\ fetched (snd (materialize world_media
                     (mkMessage "Ada L (ada)" "123" "9" "look"
                        "https://api.telegram.org/file/botTOKEN/voice/file_1.oga"
                        "https://api.telegram.org/file/botTOKEN/photos/file_2.jpg"
                        ".jpg") st0))
     = ["https://api.telegram.org/file/botTOKEN/voice/file_1.oga"]
  /\ (exists m',
        fst (materialize world_media
               (mkMessage "Ada L (ada)" "123" "9" "look"
                  "https://api.telegram.org/file/botTOKEN/voice/file_1.oga"
                  "https://api.telegram.org/file/botTOKEN/photos/file_2.jpg"
                  ".jpg") st0) = Ok m'
        /\ contains (Text m') "voice file"
        /\ contains (Text m') "f0.jpg").
Proof.
  destruct (voice_before_image world_media) as (Hpoll & Hlisten).
  split; [|split].
  - destruct (Hlisten update_both _ ada (telegram.mkVoice "v1")
                (telegram.mkPhotoSize "p1") []
                (telegram.mkFile "voice/file_1.oga") (telegram.mkFile "photos/file_2.jpg")
                st0 eq_refl eq_refl eq_refl eq_refl eq_refl eq_refl eq_refl
                ltac:(vm_compute; lia))
      as (s' & Hl & Hq & Hr & _).
    exists s'. split; [exact Hl|]. split; [exact Hq | exact Hr].
  - assert (Hv : VoiceURL (mkMessage "Ada L (ada)" "123" "9" "look"
                             "https://api.telegram.org/file/botTOKEN/voice/file_1.oga"
                             "https://api.telegram.org/file/botTOKEN/photos/file_2.jpg"
                             ".jpg") <> "") by discriminate.
    assert (Hi : ImageURL (mkMessage "Ada L (ada)" "123" "9" "look"
                             "https://api.telegram.org/file/botTOKEN/voice/file_1.oga"
                             "https://api.telegram.org/file/botTOKEN/photos/file_2.jpg"
                             ".jpg") <> "") by discriminate.
    destruct (Hpoll _ st0 Hv Hi) as (Hf & _). exact Hf.
  - assert (Hv : VoiceURL (mkMessage "Ada L (ada)" "123" "9" "look"
                             "https://api.telegram.org/file/botTOKEN/voice/file_1.oga"
                             "https://api.telegram.org/file/botTOKEN/photos/file_2.jpg"
                             ".jpg") <> "") by discriminate.
    assert (Hi : ImageURL (mkMessage "Ada L (ada)" "123" "9" "look"
                             "https://api.telegram.org/file/botTOKEN/voice/file_1.oga"
                             "https://api.telegram.org/file/botTOKEN/photos/file_2.jpg"
                             ".jpg") <> "") by discriminate.
    destruct (Hpoll _ st0 Hv Hi) as (_ & (Hm & _)).
    eexists. split; [exact Hm|]. simpl Text. split.
    + exists "<INFO>This message contains a ". eexists. reflexivity.
    + exists "<INFO>This message contains a voice file which you can find in the workspace at ".
      eexists. reflexivity.
Defined.

(** ** The dispatch endpoint *)

Section Dispatch.

Variable W : World.

Lemma dispatch_sent (msg : telegram.MessageConfig) (s : State) (w : ResponseWriter) :
  sent (fst (dispatch W msg s w)) = (sent s ++ [msg])%list
  /\ match bot_Send W (List.length (sent s)) msg with
     | Some _ => snd (dispatch W msg s w)
                 = http_Error w "Failed to send Message" StatusInternalServerError
     | None => snd (dispatch W msg s w) = w
     end.
Proof. unfold dispatch. now destruct (bot_Send W _ msg). Qed.

End Dispatch.

(** C8 (as the code has it). A [/send] request whose body does not
    parse as JSON, whose [chatId] is no 64-bit integer or whose
    non-empty [msgId] is no integer is answered with status 400 and
    nothing is given to the platform's send API.  A request that
    passes gives exactly one message to the send API, to the chat and
    with the text of the request; its [ReplyToMessageID] is the number
    [msgId] denotes when one was supplied and Go's zero value when none
    was.  So the message carries a reply target exactly when a [msgId]
    was supplied that denotes a number other than 0; with a [msgId]
    that denotes 0 the message is the plain new message.  The answer is
    a 500 when that send fails and an empty 200 when it succeeds. *)
Theorem handleSend_spec (W : World) (s : State) :
  (forall r : Request,
      bad_request W r ->
      sent_status (snd (handleSend W r s fresh)) = StatusBadRequest
      /\ sent (fst (handleSend W r s fresh)) = sent s)
  /\ (forall (r : Request) (bodyBytes : string) (req : Message) (chatID : Z),
         ReadAll_Body r = Ok bodyBytes ->
         json_Unmarshal W bodyBytes = Ok req ->
         strconv.ParseInt (ChatID req) 64 = Some chatID ->
         (MsgID req = "" \/ exists msgID, strconv.Atoi (MsgID req) = Some msgID) ->
         exists msg : telegram.MessageConfig,
           sent (fst (handleSend W r s fresh)) = (sent s ++ [msg])%list
           /\ (MsgID req = "" -> msg = telegram.NewMessage chatID (Text req))
           /\ (MsgID req <> "" ->
               exists msgID,
                 strconv.Atoi (MsgID req) = Some msgID
                 /\ msg = telegram.set_ReplyToMessageID msgID
                            (telegram.NewMessage chatID (Text req)))
           /\ match bot_Send W (List.length (sent s)) msg with
              | Some _ =>
                sent_status (snd (handleSend W r s fresh)) = StatusInternalServerError
              | None =>
                sent_status (snd (handleSend W r s fresh)) = StatusOK
                /\ body (snd (handleSend W r s fresh)) = ""
              end
           /\ (telegram.ReplyToMessageID msg <> 0 <->
               MsgID req <> ""
               /\ exists msgID, strconv.Atoi (MsgID req) = Some msgID /\ msgID <> 0)).
Proof.
  split.
  - intros r Hbad. unfold bad_request in Hbad. unfold handleSend.
    destruct (ReadAll_Body r) as [bodyBytes|e]; [|now split].
    destruct (json_Unmarshal W bodyBytes) as [req|e]; [|now split].
    destruct Hbad as [Hchat | [Hne Hmsg]].
    + rewrite Hchat. now split.
    + destruct (strconv.ParseInt (ChatID req) 64); [|now split].
      destruct (decide (MsgID req <> "")); [|contradiction].
      rewrite Hmsg. now split.
  - intros r bodyBytes req chatID Hbody Hjson Hchat Hmsg.
    unfold handleSend. rewrite Hbody, Hjson, Hchat.
    destruct (decide (MsgID req <> "")) as [Hne|He].
    + destruct Hmsg as [He | (msgID & Hatoi)]; [contradiction|].
      rewrite Hatoi.
      set (msg := telegram.set_ReplyToMessageID msgID _).
      destruct (dispatch_sent W msg s fresh) as (Hsent & Hresp).
      exists msg. split; [exact Hsent|]. split; [intros; contradiction|].
      split; [eauto|]. split.
      * destruct (bot_Send W _ msg); rewrite Hresp; [reflexivity | now split].
      * subst msg. simpl. split.
        -- intros Hnz. split; [exact Hne|]. eauto.
        -- intros (_ & msgID' & Hatoi' & Hnz). congruence.
    + assert (Hempty : MsgID req = "") by (destruct (decide (MsgID req = "")); tauto).
      set (msg := telegram.NewMessage chatID (Text req)).
      destruct (dispatch_sent W msg s fresh) as (Hsent & Hresp).
      exists msg. split; [exact Hsent|]. split; [reflexivity|].
      split; [intros; contradiction|]. split.
      * destruct (bot_Send W _ msg); rewrite Hresp; [reflexivity | now split].
      * subst msg. simpl. split; [intros Hnz; now destruct Hnz | tauto].
Qed.

(** Three requests in the sample world: [chatId] [abc] is refused with
    no send, [chatId] [123] gives one plain message to chat 123, and
    with [msgId] [42] the message replies to message 42. *)
Lemma handleSend_spec_witness :
  (sent_status (snd (handleSend world0 (mkRequest (Ok (Marshal req_abc))) st0 fresh))
   = StatusBadRequest
   /\ sent (fst (handleSend world0 (mkRequest (Ok (Marshal req_abc))) st0 fresh)) = [])
  /\ sent (fst (handleSend world0 (mkRequest (Ok (Marshal req_123))) st0 fresh))
     = [telegram.NewMessage 123 "hi"]
  /\ sent (fst (handleSend world0 (mkRequest (Ok (Marshal req_reply))) st0 fresh))
     = [telegram.mkMessageConfig 123 "hi" 42].
Proof.
  destruct (handleSend_spec world0 st0) as (Hbad & Hok).
  split; [|split].
  - apply Hbad. vm_compute. left. reflexivity.
  - destruct (Hok (mkRequest (Ok (Marshal req_123))) (Marshal req_123) req_123 123
                eq_refl eq_refl eq_refl (or_introl eq_refl))
      as (msg & Hsent & Hplain & _).
    rewrite Hsent, (Hplain eq_refl). reflexivity.
  - destruct (Hok (mkRequest (Ok (Marshal req_reply))) (Marshal req_reply) req_reply 123
                eq_refl eq_refl eq_refl (or_intror (ex_intro _ 42 eq_refl)))
      as (msg & Hsent & _ & Hreply & _).
    assert (Hne : MsgID req_reply <> "") by discriminate.
    destruct (Hreply Hne) as (msgID & Hatoi & ->).
    rewrite Hsent. injection Hatoi as <-. reflexivity.
Defined.

(** The claim as the specification words it fails on a [msgId] that
    denotes 0: the [msgId] was supplied, and the one message given to
    the send API is the plain new message, the same as for the request
    without [msgId]; it carries no reply target. *)
Lemma handleSend_counterexample :
  MsgID req_zero <> ""
  /\ sent (fst (handleSend world_zero (mkRequest (Ok (Marshal req_zero))) st0 fresh))
     = [telegram.NewMessage 123 "hi"]
  /\ sent (fst (handleSend world_zero (mkRequest (Ok (Marshal req_123))) st0 fresh))
     = [telegram.NewMessage 123 "hi"]
  /\ telegram.ReplyToMessageID (telegram.NewMessage 123 "hi") = 0.
Proof. split; [discriminate|]. vm_compute. repeat split; reflexivity. Qed.

(** ** The text of a record *)

(** C9 (as the code has it). The record the listener enqueues carries
    the text of the event as it came, empty or not; nothing is
    synthesized before the queue.  A voice or photo payload leaves a
    locator on the record, and a text is synthesized for a record with
    a locator when the poll materializes it: such a record leaves the
    relay with a non-empty text, while a record without locator leaves
    with the text of the event. *)
Theorem listener_text (W : World) (update : telegram.Update) (um : telegram.Message)
        (s s' : State) :
  telegram.u_Message update = Some um ->
  listen W update s = Enqueued s' ->
  exists m : Message,
    messageQueue s' = (messageQueue s ++ [m])%list
    /\ Text m = telegram.m_Text um
    /\ (telegram.m_Voice um <> None -> VoiceURL m <> "")
    /\ (telegram.m_Photo um <> None -> ImageURL m <> "")
    /\ forall (s1 : State) (m' : Message) (s2 : State),
         materialize W m s1 = (Ok m', s2) ->
         (VoiceURL m <> "" \/ ImageURL m <> "" -> Text m' <> "")
         /\ (VoiceURL m = "" -> ImageURL m = "" -> Text m' = telegram.m_Text um).
Proof.
  intros Hum Hl.
  destruct (listen_Enqueued W update um s s' Hum Hl)
    as (usr & m1 & s1 & m & s2 & _ & _ & Hrv & Hrp & Hq).
  apply resolveVoice_Some in Hrv. apply resolvePhoto_Kept in Hrp.
  destruct Hrv as (_ & Hrv). destruct Hrp as (_ & Hrp).
  exists m. split; [exact Hq|].
  assert (Htext : Text m = telegram.m_Text um
                  /\ (telegram.m_Voice um <> None -> VoiceURL m <> "")
                  /\ (telegram.m_Photo um <> None -> ImageURL m <> "")).
  { destruct (telegram.m_Voice um) as [v|], (telegram.m_Photo um) as [photos|].
    - destruct Hrv as (fv & _ & -> & _). destruct Hrp as (p & ps & fp & _ & _ & ->).
      simpl. repeat split; auto using Link_nonempty.
    - destruct Hrv as (fv & _ & -> & _). subst m.
      simpl. repeat split; auto using Link_nonempty; congruence.
    - destruct Hrv as (-> & _). destruct Hrp as (p & ps & fp & _ & _ & ->).
      simpl. repeat split; auto using Link_nonempty; congruence.
    - destruct Hrv as (-> & _). subst m. simpl. repeat split; congruence. }
  destruct Htext as (Ht & Hv & Hp).
  split; [exact Ht|]. split; [exact Hv|]. split; [exact Hp|].
  intros s3 m' s4 Hm. apply materialize_Ok in Hm. cbv zeta in Hm.
  destruct (decide (VoiceURL m <> "")) as [Hvm|Hvm].
  - destruct Hm as (-> & _). split; [intros _; simpl; discriminate | contradiction].
  - destruct (decide (ImageURL m <> "")) as [Him|Him].
    + destruct Hm as (-> & _). split; [intros _; simpl; discriminate | contradiction].
    + destruct Hm as (-> & _). split; [tauto | intros _ _; exact Ht].
Qed.

Lemma listener_text_witness :
  exists m : Message,
    messageQueue (set_queue [newRecord
                               (telegram.mkMessage 13 (Some ada) (telegram.mkChat 123)
                                  "" None None) ada]
                    (add_log (LogInfo "Received a Message") st0))
    = ([] ++ [m])%list
    /\ Text m = "".
Proof.
  destruct (listener_text world0 update_sticker _ st0 _ eq_refl eq_refl)
    as (m & Hq & Ht & _).
  exists m. split; [exact Hq | exact Ht].
Defined.

(** The claim as the specification words it fails on an event without
    text and without media from an allowed sender: the listener admits
    it, the enqueued record has an empty text, and the poll writes it
    out with that empty text. *)
Lemma text_nonempty_counterexample :
  exists (s' : State) (m : Message),
    listen world0 update_sticker st0 = Enqueued s'
    /\ messageQueue s' = [m]
    /\ Text m = ""
    /\ body (snd (handleMessage world0 s' fresh)) = Marshal m +:+ "No messages" +:+ nl
    /\ contains (Marshal m) (json.member "text" "").
Proof.
  eexists; eexists. split; [reflexivity|]. split; [reflexivity|].
  split; [reflexivity|]. split; [reflexivity|].
  apply contains_append_l, contains_append_r, contains_join.
  simpl. auto.
Qed.

(** * Further properties of the code *)

(** ** The poll: what is taken out and what is fetched *)

Section PollTrace.

Variable W : World.

(** [materialize] fetches the record's locator, if it has one, and
    nothing else, whether the upload succeeds or not. *)
Lemma materialize_fetched (msg : Message) (s : State) :
  fetched (snd (materialize W msg s)) = (fetched s ++ option_list (locator msg))%list.
Proof.
  unfold materialize, locator.
  destruct (decide (VoiceURL msg <> "")).
  - pose proof (uploadToWs_frame W (VoiceURL msg) (FileExt msg) s) as Hf.
    destruct (uploadToWs W (VoiceURL msg) (FileExt msg) s) as [[path err] s1].
    destruct Hf as (_ & Hf & _). now destruct err.
  - destruct (decide (ImageURL msg <> "")).
    + pose proof (uploadToWs_frame W (ImageURL msg) (FileExt msg) s) as Hf.
      destruct (uploadToWs W (ImageURL msg) (FileExt msg) s) as [[path err] s1].
      destruct Hf as (_ & Hf & _). now destruct err.
    + simpl. now rewrite app_nil_r.
Qed.

Lemma drain_conservation (q : list Message) (s : State) (w : ResponseWriter) :
  messageQueue s = q ->
  exists k : nat,
    (k <= List.length q)%nat
    /\ found (log (fst (drain W q s w))) = (found (log s) ++ take k q)%list
    /\ messageQueue (fst (drain W q s w)) = drop k q
    /\ fetched (fst (drain W q s w)) = (fetched s ++ omap locator (take k q))%list.
Proof.
  revert s w. induction q as [|msg q IH]; intros s w Hq.
  - exists 0%nat. simpl. now rewrite !app_nil_r.
  - simpl.
    pose proof (materialize_frame W msg (add_log (LogFound msg) (set_queue q s))) as Hf.
    pose proof (materialize_fetched msg (add_log (LogFound msg) (set_queue q s))) as Hfe.
    destruct (materialize W msg _) as [[m'|text] s1]; simpl in Hfe;
      destruct Hf as (Hq1 & Hl1 & _ & _).
    + destruct (IH s1 (rw_Write (Marshal m') w) Hq1) as (k & Hk & Hfound & Hrest & Hfetched).
      exists (S k). simpl. rewrite Hfound, Hrest, Hfetched, Hl1, Hfe. simpl.
      unfold found at 1. rewrite omap_app. simpl. fold (found (log s)).
      rewrite <- !app_assoc. repeat split; [lia|].
      now destruct (locator msg).
    + exists 1%nat. simpl. rewrite Hl1, Hfe, Hq1. simpl.
      unfold found at 1. rewrite omap_app. simpl. fold (found (log s)).
      rewrite take_0, drop_0. repeat split; try lia.
Qed.

End PollTrace.

(** X1. Whatever the outside does, a poll takes a prefix of the queue
    out, oldest first, and leaves the rest queued in order: no record
    is taken out twice, none is skipped.  It fetches one URL for each
    record it took out that has a locator (the voice locator when set,
    else the image locator), in that order, and nothing else. *)
Theorem poll_conservation (W : World) (s : State) (w : ResponseWriter) :
  exists k : nat,
    (k <= List.length (messageQueue s))%nat
    /\ found (log (fst (handleMessage W s w)))
       = (found (log s) ++ take k (messageQueue s))%list
    /\ messageQueue (fst (handleMessage W s w)) = drop k (messageQueue s)
    /\ fetched (fst (handleMessage W s w))
       = (fetched s ++ omap locator (take k (messageQueue s)))%list.
Proof. unfold handleMessage. now apply drain_conservation. Qed.

(** X2. The image branch of the poll.  For a record with an image
    locator and no voice locator, a successful materialization means
    that the image URL was fetched, that the body read from the
    response is stored in the workspace under the fresh name followed
    by the record's extension, and that the text is rewritten to the
    image marker naming that path, followed by the record as it was
    inside the message marker. *)
Theorem image_annotation (W : World) (msg m' : Message) (s s' : State) :
  VoiceURL msg = "" ->
  ImageURL msg <> "" ->
  materialize W msg s = (Ok m', s') ->
  exists (resp : Response) (b : string),
    http_Get W (List.length (fetched s)) (ImageURL msg) = Ok resp
    /\ Body resp = Ok b
    /\ workspace s'
       = <[uuid_NewString W (List.length (fetched s)) +:+ FileExt msg := b]> (workspace s)
    /\ fetched s' = (fetched s ++ [ImageURL msg])%list
    /\ m' = set_Text
              ("<INFO>This message contains an image file which you can find in the workspace at "
                 +:+ (uuid_NewString W (List.length (fetched s)) +:+ FileExt msg)
                 +:+ "<INFO>" +:+ nl +:+ "<MESSAGE>" +:+ fmt.s msg +:+ "</MESSAGE>")
              msg.
Proof.
  intros Hv Hi. unfold materialize.
  destruct (decide (VoiceURL msg <> "")); [congruence|].
  destruct (decide (ImageURL msg <> "")); [|contradiction].
  pose proof (uploadToWs_cases W (ImageURL msg) (FileExt msg) s) as (Hp & Hf & Hw).
  destruct (uploadToWs W (ImageURL msg) (FileExt msg) s) as [[path err] s1].
  simpl in Hp, Hf, Hw. destruct err as [e|]; [discriminate|].
  intros [= <- <-]. subst path.
  destruct (http_Get W _ _) as [resp|e]; [|now destruct Hw].
  destruct (Body resp) as [b|e] eqn:Hb; [|now destruct Hw].
  destruct (WriteFileInWorkspace W _ _ b); [now destruct Hw|].
  exists resp, b. destruct Hw as (_ & Hw). auto.
Qed.

Lemma image_annotation_witness :
  VoiceURL sample_image = ""
  /\ ImageURL sample_image <> ""
  /\ workspace (snd (materialize world0 sample_image st0)) !! "f0.jpg" = Some "DATA".
Proof.
  assert (Hi : ImageURL sample_image <> "") by discriminate.
  split; [reflexivity|]. split; [exact Hi|].
  destruct (image_annotation world0 sample_image
              (set_Text (image_text "f0.jpg" sample_image) sample_image)
              st0 (snd (materialize world0 sample_image st0)) eq_refl Hi eq_refl)
    as (resp & b & Hget & Hb & Hws & _).
  rewrite Hws. injection Hget as <-. injection Hb as <-.
  apply lookup_insert_eq.
Defined.

(** ** The update loop: one turn *)

Lemma quiet_refl (s : State) : quiet s s.
Proof. unfold quiet. auto 10. Qed.

Lemma quiet_trans (s1 s2 s3 : State) : quiet s1 s2 -> quiet s2 s3 -> quiet s1 s3.
Proof. unfold quiet. intuition congruence. Qed.

Lemma quiet_LogInfo (text : string) (s : State) : quiet s (add_log (LogInfo text) s).
Proof.
  unfold quiet, found. simpl. rewrite omap_app. simpl. rewrite app_nil_r. auto 10.
Qed.

Lemma quiet_LogWarn (text : string) (s : State) : quiet s (add_log (LogWarn text) s).
Proof.
  unfold quiet, found. simpl. rewrite omap_app. simpl. rewrite app_nil_r. auto 10.
Qed.

Lemma quiet_LogError (text : string) (s : State) : quiet s (add_log (LogError text) s).
Proof.
  unfold quiet, found. simpl. rewrite omap_app. simpl. rewrite app_nil_r. auto 10.
Qed.

Lemma quiet_add_resolved (id : string) (s : State) : quiet s (add_resolved id s).
Proof. unfold quiet. simpl. auto 10. Qed.

Lemma isAuthorized_quiet (s s' : State) (user : option telegram.User) :
  quiet s s' -> isAuthorized s' user = isAuthorized s user.
Proof.
  intros (Hids & Hnames & _). unfold isAuthorized. now rewrite Hids, Hnames.
Qed.

Section Turn.

Variable W : World.

Lemma GetFile_quiet (id : string) (s : State) : quiet s (snd (GetFile W id s)).
Proof. apply quiet_add_resolved. Qed.

Lemma resolveVoice_quiet (um : telegram.Message) (m : Message) (s : State) :
  quiet s (snd (resolveVoice W um m s)).
Proof.
  unfold resolveVoice. destruct (telegram.m_Voice um) as [v|]; [|apply quiet_refl].
  pose proof (GetFile_quiet (telegram.Voice_FileID v)
                (add_log (LogInfo "Received a Voice Message") s)) as Hq.
  destruct (GetFile W _ _) as [[f|e] s1]; simpl in *.
  - eapply quiet_trans; [apply quiet_LogInfo | exact Hq].
  - eapply quiet_trans; [apply quiet_LogInfo|].
    eapply quiet_trans; [exact Hq | apply quiet_LogError].
Qed.

Lemma resolvePhoto_quiet (um : telegram.Message) (m : Message) (s : State) :
  match resolvePhoto W um m s with
  | Kept _ s' | Dropped s' | OutOfRange s' => quiet s s'
  end.
Proof.
  unfold resolvePhoto. destruct (telegram.m_Photo um) as [[|p ps]|];
    [apply quiet_LogInfo | | apply quiet_refl].
  pose proof (GetFile_quiet (telegram.Photo_FileID p)
                (add_log (LogInfo "Received a Photo Message") s)) as Hq.
  destruct (GetFile W _ _) as [[f|e] s1]; simpl in *.
  - eapply quiet_trans; [apply quiet_LogInfo | exact Hq].
  - eapply quiet_trans; [apply quiet_LogInfo|].
    eapply quiet_trans; [exact Hq | apply quiet_LogError].
Qed.

(** A turn asks the bot API and writes log lines; the one other thing
    it may do is append one record to the queue, when there is room. *)
Lemma listen_quiet (update : telegram.Update) (s : State) :
  match listen W update s with
  | Enqueued s' =>
    exists m s1,
      quiet s s1
      /\ s' = set_queue (messageQueue s ++ [m]) s1
      /\ (List.length (messageQueue s) < capacity)%nat
  | Waiting _ s' => quiet s s' /\ (capacity <= List.length (messageQueue s))%nat
  | Skipped s' | Panicked s' => quiet s s'
  end.
Proof.
  unfold listen. destruct (telegram.u_Message update) as [um|]; [|apply quiet_refl].
  destruct (negb (isAuthorized s (telegram.SentFrom update))).
  { destruct (telegram.SentFrom update); [apply quiet_LogWarn | apply quiet_refl]. }
  destruct (telegram.SentFrom update) as [usr|]; [|apply quiet_refl].
  pose proof (resolveVoice_quiet um (newRecord um usr)
                (add_log (LogInfo "Received a Message") s)) as Hv.
  destruct (resolveVoice W um _ _) as [[m1|] s1]; simpl in Hv.
  2: { eapply quiet_trans; [apply quiet_LogInfo | exact Hv]. }
  assert (Hs1 : quiet s s1) by (eapply quiet_trans; [apply quiet_LogInfo | exact Hv]).
  pose proof (resolvePhoto_quiet um m1 s1) as Hp.
  destruct (resolvePhoto W um m1 s1) as [m s2|s2|s2];
    try (eapply quiet_trans; [exact Hs1 | exact Hp]).
  assert (Hs2 : quiet s s2) by (eapply quiet_trans; [exact Hs1 | exact Hp]).
  assert (Hq : messageQueue s2 = messageQueue s) by (now destruct Hs2 as (_ & _ & Hq & _)).
  unfold send. rewrite Hq.
  destruct (Nat.ltb_spec (List.length (messageQueue s)) capacity).
  - exists m, s2. auto.
  - split; [exact Hs2 | lia].
Qed.

End Turn.

(** X3. The listener never downloads or stores an attachment and never
    sends a message: whatever the update and however the turn ends, the
    URLs fetched, the workspace, and the messages sent are as before,
    and so are the allow-lists and the records taken out of the queue.
    A record enters the queue with its remote locators only;
    materialization is left to the poll. *)
Theorem listener_only_enqueues (W : World) (update : telegram.Update) (s : State) :
  fetched (turn_state (listen W update s)) = fetched s
  /\ workspace (turn_state (listen W update s)) = workspace s
  /\ sent (turn_state (listen W update s)) = sent s
  /\ allowedUserIDs (turn_state (listen W update s)) = allowedUserIDs s
  /\ allowedUserNames (turn_state (listen W update s)) = allowedUserNames s
  /\ found (log (turn_state (listen W update s))) = found (log s).
Proof.
  pose proof (listen_quiet W update s) as H.
  destruct (listen W update s) as [s'|s'|m s'|s']; simpl.
  - unfold quiet in H. tauto.
  - destruct H as (m & s1 & Hq & -> & _). unfold quiet in Hq. simpl. tauto.
  - destruct H as (Hq & _). unfold quiet in Hq. tauto.
  - unfold quiet in H. tauto.
Qed.


(** X5. The gate at the listener.  An update whose sender is present
    and not authorized is skipped: the turn writes one warning and does
    nothing else (the bot API is not asked to resolve a file, nothing is
    enqueued).  An update whose message has no sender at all is not
    skipped: [isAuthorized] refuses the nil sender, and the warning then
    reads [user.ID] through the nil pointer, so the loop panics. *)
Theorem listen_refused (W : World) (update : telegram.Update) (um : telegram.Message)
        (s : State) :
  telegram.u_Message update = Some um ->
  isAuthorized s (telegram.m_From um) = false ->
  match telegram.m_From um with
  | Some _ => listen W update s = Skipped (add_log (LogWarn "Unauthorized user") s)
  | None => listen W update s = Panicked s
  end.
Proof.
  intros Hum Hauth. unfold listen, telegram.SentFrom. rewrite Hum, Hauth. simpl.
  now destruct (telegram.m_From um).
Qed.

Lemma listen_refused_witness :
  isAuthorized st0 (Some eve) = false
  /\ listen world0 update_eve st0 = Skipped (add_log (LogWarn "Unauthorized user") st0)
  /\ listen world0 update_anonymous st0 = Panicked st0.
Proof.
  assert (He : isAuthorized st0 (Some eve) = false) by reflexivity.
  split; [exact He|]. split.
  - exact (listen_refused world0 update_eve _ st0 eq_refl He).
  - exact (listen_refused world0 update_anonymous _ st0 eq_refl eq_refl).
Defined.

(** X6. An event whose attachment cannot be resolved is dropped whole.
    When [GetFile] fails for the voice payload of an authorized sender,
    the turn ends there: nothing is enqueued, the text of the event is
    not relayed, and the photo (if any) is not looked at.  The same
    holds when [GetFile] fails for the first photo size, also after the
    voice was resolved. *)
Theorem listen_unresolved (W : World) (update : telegram.Update) (um : telegram.Message)
        (usr : telegram.User) (s : State) :
  telegram.u_Message update = Some um ->
  telegram.m_From um = Some usr ->
  isAuthorized s (Some usr) = true ->
  (forall v e,
      telegram.m_Voice um = Some v ->
      bot_GetFile W (List.length (resolved s)) (telegram.Voice_FileID v) = Err e ->
      exists s',
        listen W update s = Skipped s'
        /\ messageQueue s' = messageQueue s
        /\ resolved s' = (resolved s ++ [telegram.Voice_FileID v])%list)
  /\ (forall p ps e,
         (telegram.m_Voice um = None
          \/ exists v fv,
               telegram.m_Voice um = Some v
               /\ bot_GetFile W (List.length (resolved s)) (telegram.Voice_FileID v)
                  = Ok fv) ->
         telegram.m_Photo um = Some (p :: ps) ->
         bot_GetFile W
           (List.length (resolved s) + match telegram.m_Voice um with
                                       | Some _ => 1
                                       | None => 0
                                       end)%nat
           (telegram.Photo_FileID p) = Err e ->
         exists s',
           listen W update s = Skipped s'
           /\ messageQueue s' = messageQueue s).
Proof.
  intros Hum Hfrom Hauth. split.
  - intros v e Hv Hget.
    unfold listen, telegram.SentFrom. rewrite Hum, Hfrom, Hauth. simpl.
    unfold resolveVoice, GetFile. rewrite Hv. simpl. rewrite Hget.
    eexists. split; [reflexivity|]. simpl. auto.
  - intros p ps e Hvoice Hp Hget.
    unfold listen, telegram.SentFrom. rewrite Hum, Hfrom, Hauth. simpl.
    unfold resolveVoice, GetFile.
    destruct Hvoice as [Hv | (v & fv & Hv & Hgv)]; rewrite Hv in *; simpl.
    + unfold resolvePhoto, GetFile. rewrite Hp. simpl.
      rewrite Nat.add_0_r in Hget. rewrite Hget.
      eexists. split; [reflexivity|]. reflexivity.
    + rewrite Hgv. unfold resolvePhoto, GetFile. rewrite Hp. simpl.
      rewrite length_app. simpl. rewrite Hget.
      eexists. split; [reflexivity|]. reflexivity.
Qed.

Lemma listen_unresolved_witness :
  isAuthorized st0 (Some ada) = true
  /\ exists s',
       listen world_unresolved update_both st0 = Skipped s'
       /\ messageQueue s' = []
       /\ resolved s' = ["v1"].
Proof.
  assert (Ha : isAuthorized st0 (Some ada) = true) by reflexivity.
  split; [exact Ha|].
  destruct (listen_unresolved world_unresolved update_both _ ada st0 eq_refl eq_refl Ha)
    as (Hvoice & _).
  exact (Hvoice (telegram.mkVoice "v1") "Bad Request: file is too big" eq_refl eq_refl).
Defined.

Section Built.

Variable W : World.

Lemma built_from_allow (s s' : State) (update : telegram.Update) (m : Message) :
  allowedUserIDs s' = allowedUserIDs s ->
  allowedUserNames s' = allowedUserNames s ->
  built_from s' update m -> built_from s update m.
Proof.
  intros Hids Hnames (um & usr & Hum & Hfrom & Hauth & Hrest).
  exists um, usr. repeat split; try tauto.
  unfold isAuthorized in *. now rewrite <- Hids, <- Hnames.
Qed.

(** The record a turn enqueues is the one built from the update, with
    the locators added: sender line, chat, message id and text are the
    update's. *)
Lemma listen_built (update : telegram.Update) (s s' : State) :
  listen W update s = Enqueued s' ->
  exists m, messageQueue s' = (messageQueue s ++ [m])%list /\ built_from s update m.
Proof.
  intros Hl.
  destruct (telegram.u_Message update) as [um|] eqn:Hum.
  2: { unfold listen in Hl. rewrite Hum in Hl. discriminate. }
  destruct (listen_Enqueued W update um s s' Hum Hl)
    as (usr & m1 & s1 & m & s2 & Hfrom & Hauth & Hrv & Hrp & Hq).
  exists m. split; [exact Hq|]. exists um, usr.
  apply resolveVoice_Some in Hrv. apply resolvePhoto_Kept in Hrp.
  destruct Hrv as (_ & Hrv). destruct Hrp as (_ & Hrp).
  assert (Hm1 : User m1 = User (newRecord um usr) /\ ChatID m1 = ChatID (newRecord um usr)
                /\ MsgID m1 = MsgID (newRecord um usr) /\ Text m1 = Text (newRecord um usr)).
  { destruct (telegram.m_Voice um).
    - destruct Hrv as (f & _ & -> & _). simpl. auto.
    - destruct Hrv as (-> & _). auto. }
  assert (Hm : User m = User m1 /\ ChatID m = ChatID m1
               /\ MsgID m = MsgID m1 /\ Text m = Text m1).
  { destruct (telegram.m_Photo um).
    - destruct Hrp as (p & ps & f & _ & _ & ->). simpl. auto.
    - subst m. auto. }
  destruct Hm1 as (H1 & H2 & H3 & H4). destruct Hm as (H5 & H6 & H7 & H8).
  simpl in H2, H3, H4. repeat split; try assumption; congruence.
Qed.

End Built.

(** X7. The gate holds for the whole loop, and the loop keeps the
    order of arrival.  After the listener has gone through any finite
    sequence of updates (to its end, to a full queue, or to a panic),
    the queue is the old queue followed by records built, in order,
    from a subsequence of the updates, each from an update whose sender
    is present and authorized; nothing was fetched, stored or sent on
    the way. *)
Theorem listen_all_sound (W : World) (updates : list telegram.Update) (s : State) :
  exists (us : list telegram.Update) (ms : list Message),
    sublist us updates
    /\ Forall2 (built_from s) us ms
    /\ messageQueue (run_state (listen_all W updates s)) = (messageQueue s ++ ms)%list
    /\ fetched (run_state (listen_all W updates s)) = fetched s
    /\ workspace (run_state (listen_all W updates s)) = workspace s
    /\ sent (run_state (listen_all W updates s)) = sent s
    /\ allowedUserIDs (run_state (listen_all W updates s)) = allowedUserIDs s
    /\ allowedUserNames (run_state (listen_all W updates s)) = allowedUserNames s.
Proof.
  revert s. induction updates as [|update rest IH]; intros s.
  - exists [], []. simpl. rewrite app_nil_r. repeat split; constructor.
  - simpl.
    pose proof (listen_quiet W update s) as Hq.
    pose proof (listen_built W update s) as Hb.
    destruct (listen W update s) as [s'|s'|m s'|s'].
    + destruct (IH s') as (us & ms & Hsub & Hall & Hqueue & Hf & Hw & Hs & Hi & Hn).
      unfold quiet in Hq. destruct Hq as (Hi' & Hn' & Hq' & Hf' & Hw' & Hs' & _).
      exists us, ms. repeat split; try congruence.
      * now apply sublist_cons.
      * eapply Forall2_impl; [exact Hall|]. intros u m. now apply built_from_allow.
    + destruct (Hb s' eq_refl) as (m & Hqm & Hbm).
      destruct Hq as (m0 & s1 & Hq1 & -> & _).
      unfold quiet in Hq1. destruct Hq1 as (Hi' & Hn' & Hq' & Hf' & Hw' & Hs' & _).
      destruct (IH (set_queue (messageQueue s ++ [m0]) s1))
        as (us & ms & Hsub & Hall & Hqueue & Hf & Hw & Hs & Hi & Hn).
      simpl in *. apply app_inv_head in Hqm. injection Hqm as ->.
      exists (update :: us), (m :: ms). repeat split; try congruence.
      * now apply sublist_skip.
      * constructor; [exact Hbm|].
        eapply Forall2_impl; [exact Hall|]. intros u m'.
        now apply built_from_allow.
      * rewrite Hqueue, <- app_assoc. reflexivity.
    + destruct Hq as (Hq & _). unfold quiet in Hq.
      exists [], []. simpl. rewrite app_nil_r.
      repeat split; try tauto; [apply sublist_nil_l | constructor].
    + unfold quiet in Hq. exists [], []. simpl. rewrite app_nil_r.
      repeat split; try tauto; [apply sublist_nil_l | constructor].
Qed.

(** ** Identifiers: printed by the listener, parsed by [/send] *)

Lemma digit_pretty_N_char (d : N) :
  (d < 10)%N ->
  strconv.digit (pretty_N_char d) = Some (Z.of_N d)
  /\ Ascii.eqb (pretty_N_char d) "+" = false
  /\ Ascii.eqb (pretty_N_char d) "-" = false.
Proof.
  intros Hd.
  assert (d = 0 \/ d = 1 \/ d = 2 \/ d = 3 \/ d = 4 \/ d = 5 \/ d = 6 \/ d = 7
          \/ d = 8 \/ d = 9)%N as Hcases by lia.
  repeat (destruct Hcases as [-> | Hcases]; [now vm_compute|]).
  subst d. now vm_compute.
Qed.

(** The digits [pretty_N_go] writes in front of [s] are read back by
    the digit loop of [ParseUint]. *)
Lemma digits_pretty_N_go (x : N) :
  exists p : Z,
    forall (s : string) (acc : Z),
      strconv.digits acc (pretty_N_go x s) = strconv.digits (acc * p + Z.of_N x) s.
Proof.
  induction (N.lt_wf_0 x) as [x _ IH].
  destruct (decide (x = 0)%N) as [-> | Hx].
  - exists 1. intros s acc. rewrite pretty_N_go_0. f_equal. lia.
  - destruct (IH (x `div` 10)%N) as (p & Hp); [apply N.div_lt; lia|].
    exists (p * 10). intros s acc.
    rewrite pretty_N_go_step by lia. rewrite Hp. simpl.
    destruct (digit_pretty_N_char (x `mod` 10)%N) as (-> & _);
      [apply N.mod_lt; lia|].
    f_equal.
    pose proof (N.div_mod x 10 ltac:(lia)) as Hdm.
    rewrite N2Z.inj_div, N2Z.inj_mod in *.
    assert (Z.of_N x = 10 * (Z.of_N x `div` 10) + Z.of_N x `mod` 10)
      by (apply Z.div_mod; lia).
    simpl Z.of_N in *. lia.
Qed.

Lemma pretty_N_go_first (x : N) (s : string) :
  (0 < x)%N ->
  exists (d : N) (rest : string),
    (d < 10)%N /\ pretty_N_go x s = String (pretty_N_char d) rest.
Proof.
  revert s. induction (N.lt_wf_0 x) as [x _ IH]. intros s Hx.
  rewrite pretty_N_go_step by exact Hx.
  destruct (decide (x `div` 10 = 0)%N) as [-> | Hq].
  - rewrite pretty_N_go_0. exists (x `mod` 10)%N, s. split; [|reflexivity].
    apply N.mod_lt. lia.
  - apply IH; [apply N.div_lt; lia | now apply N.neq_0_lt_0].
Qed.

Lemma ParseUint_pretty_pos (x : positive) :
  exists (d : N) (rest : string),
    (d < 10)%N
    /\ pretty x = String (pretty_N_char d) rest
    /\ strconv.ParseUint (pretty x) = Some (Z.pos x).
Proof.
  unfold pretty, pretty_positive, pretty, pretty_N.
  destruct (decide (N.pos x = 0)%N); [discriminate|].
  destruct (pretty_N_go_first (N.pos x) "" ltac:(lia)) as (d & rest & Hd & Hs).
  exists d, rest. split; [exact Hd|]. split; [exact Hs|].
  destruct (digits_pretty_N_go (N.pos x)) as (p & Hp).
  unfold strconv.ParseUint. rewrite Hs, <- Hs, Hp. simpl. reflexivity.
Qed.

Lemma ParseInt_print (n : Z) :
  - 2 ^ 63 <= n < 2 ^ 63 -> strconv.ParseInt (fmt.d n) 64 = Some n.
Proof.
  intros Hn. unfold fmt.d, pretty, pretty_Z.
  destruct n as [|x|x].
  + reflexivity.
  + destruct (ParseUint_pretty_pos x) as (d & rest & Hd & Hs & Hparse).
    destruct (digit_pretty_N_char d Hd) as (_ & Hplus & Hminus).
    unfold strconv.ParseInt. rewrite Hs, Hplus, Hminus, <- Hs, Hparse.
    destruct (Z.ltb_spec (Z.pos x) (2 ^ (64 - 1))); [reflexivity|].
    change (2 ^ (64 - 1)) with (2 ^ 63) in *. lia.
  + destruct (ParseUint_pretty_pos x) as (d & rest & Hd & Hs & Hparse).
    change ("-" +:+ pretty x) with (String "-" (pretty x)).
    unfold strconv.ParseInt. simpl Ascii.eqb. cbv iota. rewrite Hparse.
    destruct (Z.leb_spec (Z.pos x) (2 ^ (64 - 1))); [reflexivity|].
    change (2 ^ (64 - 1)) with (2 ^ 63) in *. lia.
Qed.

Lemma ParseInt_in_range (t : string) (n : Z) :
  strconv.ParseInt t 64 = Some n -> - 2 ^ 63 <= n < 2 ^ 63.
Proof.
  unfold strconv.ParseInt.
  destruct t as [|c rest]; [discriminate|].
  destruct (if Ascii.eqb c "+" then _ else _) as [neg ds].
  destruct (strconv.ParseUint ds) as [un|] eqn:Hun; [|discriminate].
  assert (Hnonneg : forall s acc v, 0 <= acc -> strconv.digits acc s = Some v -> 0 <= v).
  { induction s as [|c' s IHs]; intros acc v Hacc; simpl.
    - intros [= <-]. exact Hacc.
    - unfold strconv.digit.
      destruct ((48 <=? byte c')%N && (byte c' <=? 57)%N) eqn:Hc; [|discriminate].
      apply IHs. apply andb_true_iff in Hc. destruct Hc as (Hlo & _).
      apply N.leb_le in Hlo. lia. }
  assert (0 <= un).
  { unfold strconv.ParseUint in Hun. destruct ds; [discriminate|].
    eapply Hnonneg; [|exact Hun]. lia. }
  change (2 ^ (64 - 1)) with (2 ^ 63).
  destruct neg.
  + destruct (Z.leb_spec un (2 ^ 63)); [|discriminate]. intros [= <-]. lia.
  + destruct (Z.ltb_spec un (2 ^ 63)); [|discriminate]. intros [= <-]. lia.
Qed.

(** X8. The decimal text the listener writes for a chat or message id
    is read back by [strconv.ParseInt] as the same number, for every
    number of the 64-bit range (and only a number of that range is ever
    returned). *)
Theorem ParseInt_fmt_d :
  (forall n : Z, - 2 ^ 63 <= n < 2 ^ 63 -> strconv.ParseInt (fmt.d n) 64 = Some n)
  /\ (forall (t : string) (n : Z),
         strconv.ParseInt t 64 = Some n -> - 2 ^ 63 <= n < 2 ^ 63).
Proof. split; [exact ParseInt_print | exact ParseInt_in_range]. Qed.

Lemma ParseInt_fmt_d_witness :
  strconv.ParseInt (fmt.d (-100123)) 64 = Some (-100123)
  /\ - 2 ^ 63 <= 42 < 2 ^ 63.
Proof.
  destruct ParseInt_fmt_d as (Hprint & Hparse).
  split.
  - apply Hprint. lia.
  - apply (Hparse "42"). reflexivity.
Defined.

(** X9. A reply finds its way back.  When the agent posts to [/send]
    the [chatId] and [msgId] of a record the listener built (from a
    chat id and a message id of the 64-bit range), exactly one message
    is given to the send API: it goes to the chat the event came from,
    and its [ReplyToMessageID] is the id of the message the record was
    built from.  For every id other than 0 this message differs from
    the plain new message, so the reply is threaded to that message;
    for the id 0 it is the plain new message and nothing is
    threaded. *)
Theorem reply_reaches_sender (W : World) (um : telegram.Message) (usr : telegram.User)
        (r : Request) (bodyBytes : string) (req : Message) (s : State) :
  - 2 ^ 63 <= telegram.Chat_ID (telegram.m_Chat um) < 2 ^ 63 ->
  - 2 ^ 63 <= telegram.m_MessageID um < 2 ^ 63 ->
  ReadAll_Body r = Ok bodyBytes ->
  json_Unmarshal W bodyBytes = Ok req ->
  ChatID req = ChatID (newRecord um usr) ->
  MsgID req = MsgID (newRecord um usr) ->
  sent (fst (handleSend W r s fresh))
  = (sent s ++ [telegram.mkMessageConfig (telegram.Chat_ID (telegram.m_Chat um))
                                         (Text req) (telegram.m_MessageID um)])%list
  /\ (telegram.m_MessageID um <> 0 ->
      telegram.mkMessageConfig (telegram.Chat_ID (telegram.m_Chat um))
                               (Text req) (telegram.m_MessageID um)
      <> telegram.NewMessage (telegram.Chat_ID (telegram.m_Chat um)) (Text req))
  /\ (telegram.m_MessageID um = 0 ->
      telegram.mkMessageConfig (telegram.Chat_ID (telegram.m_Chat um))
                               (Text req) (telegram.m_MessageID um)
      = telegram.NewMessage (telegram.Chat_ID (telegram.m_Chat um)) (Text req)).
Proof.
  intros Hchat Hmsg Hbody Hjson Hc Hm. simpl in Hc, Hm.
  split; [|split].
  - unfold handleSend. rewrite Hbody, Hjson, Hc, Hm.
    rewrite (ParseInt_print _ Hchat).
    pose proof (ParseInt_print _ Hmsg) as Hatoi.
    destruct (decide (fmt.d (telegram.m_MessageID um) <> "")) as [_|He].
    + unfold strconv.Atoi, strconv.intSize. rewrite Hatoi.
      now destruct (dispatch_sent W
                      (telegram.set_ReplyToMessageID (telegram.m_MessageID um)
                         (telegram.NewMessage (telegram.Chat_ID (telegram.m_Chat um))
                            (Text req))) s fresh) as (-> & _).
    + destruct (decide (fmt.d (telegram.m_MessageID um) = "")) as [He'|]; [|tauto].
      rewrite He' in Hatoi. discriminate.
  - intros Hnz Heq. unfold telegram.NewMessage in Heq. injection Heq as Heq.
    contradiction.
  - intros ->. reflexivity.
Qed.

Lemma reply_reaches_sender_witness :
  sent (fst (handleSend world0 (mkRequest (Ok (Marshal req_reply))) st0 fresh))
  = [telegram.mkMessageConfig 123 "hi" 42]
  /\ telegram.mkMessageConfig 123 "hi" 42 <> telegram.NewMessage 123 "hi".
Proof.
  destruct (reply_reaches_sender world0
              (telegram.mkMessage 42 (Some ada) (telegram.mkChat 123) "question" None None)
              ada (mkRequest (Ok (Marshal req_reply))) (Marshal req_reply) req_reply st0
              ltac:(simpl; lia) ltac:(simpl; lia) eq_refl eq_refl eq_refl eq_refl)
    as (Hsent & Hnz & _).
  split; [exact Hsent|]. apply Hnz. discriminate.
Defined.

(** X10. A text message is relayed as it came.  For an update with a
    text, no voice and no photo, from a sender who passes the gate, and
    an empty queue: the listener enqueues the record, and the next poll
    answers 200 with exactly the JSON object of that record, whose
    members are the sender line, the chat id and message id in decimal
    and the text (no locator, no extension), followed by the
    [No messages] line.  Nothing is fetched, and the queue is empty
    again. *)
Theorem relay_text (W : World) (update : telegram.Update) (um : telegram.Message)
        (usr : telegram.User) (s : State) :
  telegram.u_Message update = Some um ->
  telegram.m_From um = Some usr ->
  isAuthorized s (Some usr) = true ->
  telegram.m_Voice um = None ->
  telegram.m_Photo um = None ->
  messageQueue s = [] ->
  exists s1 s2 : State,
    listen W update s = Enqueued s1
    /\ handleMessage W s1 fresh
       = (s2, mkResponseWriter (Some StatusOK)
                (Marshal (mkMessage
                            (telegram.FirstName usr +:+ " " +:+ telegram.LastName usr
                               +:+ " (" +:+ telegram.UserName usr +:+ ")")
                            (fmt.d (telegram.Chat_ID (telegram.m_Chat um)))
                            (fmt.d (telegram.m_MessageID um))
                            (telegram.m_Text um) "" "" "")
                   +:+ "No messages" +:+ nl))
    /\ messageQueue s2 = []
    /\ fetched s2 = fetched s
    /\ resolved s2 = resolved s.
Proof.
  intros Hum Hfrom Hauth Hv Hp Hq.
  unfold listen, telegram.SentFrom. rewrite Hum, Hfrom, Hauth. simpl.
  unfold resolveVoice, resolvePhoto. rewrite Hv, Hp. simpl. rewrite Hq. simpl.
  eexists; eexists. split; [reflexivity|].
  unfold handleMessage. simpl. unfold materialize. simpl.
  split; [reflexivity|]. auto.
Qed.

Lemma relay_text_witness :
  exists s1 s2 : State,
    listen world0 update_text st0 = Enqueued s1
    /\ body (snd (handleMessage world0 s1 fresh))
       = Marshal (mkMessage "Ada L (ada)" "-100123" "14" "hello" "" "" "")
           +:+ "No messages" +:+ nl
    /\ messageQueue s2 = [].
Proof.
  destruct (relay_text world0 update_text _ _ st0 eq_refl eq_refl eq_refl
              eq_refl eq_refl eq_refl) as (s1 & s2 & Hl & Hh & Hq & _).
  exists s1, s2. split; [exact Hl|]. split; [|exact Hq].
  rewrite Hh. reflexivity.
Defined.


(** ** Start-up *)

Section Startup.

Variable U : Unicode.

Lemma loadUserIDs_spec (entries : list string) (ids : gset Z) :
  match loadUserIDs U entries ids with
  | Ok loaded =>
    (forall e, In e entries -> strings.TrimSpace U e <> "" ->
               strconv.ParseInt (strings.TrimSpace U e) 64 <> None)
    /\ forall n : Z,
         n ∈ loaded <->
         n ∈ ids
         \/ exists e, In e entries
                      /\ strings.TrimSpace U e <> ""
                      /\ strconv.ParseInt (strings.TrimSpace U e) 64 = Some n
  | Err text =>
    exists e, In e entries
              /\ strings.TrimSpace U e <> ""
              /\ strconv.ParseInt (strings.TrimSpace U e) 64 = None
              /\ text = "invalid allowed user id: " +:+ strings.TrimSpace U e
  end.
Proof.
  revert ids. induction entries as [|u rest IH]; intros ids; simpl.
  - split; [intros e []|].
    intros n. split; [auto | intros [H | (e & [] & _)]; exact H].
  - destruct (decide (strings.TrimSpace U u = "")) as [Hblank|Hne].
    + specialize (IH ids). destruct (loadUserIDs U rest ids) as [loaded|text].
      * destruct IH as (Hgood & IH). split.
        { intros e [<- | Hin]; [contradiction | now apply Hgood]. }
        intros n. rewrite IH. split.
        -- intros [H | (e & Hin & H)]; [auto | right; exists e; auto].
        -- intros [H | (e & [<- | Hin] & Hne & H)]; [auto | contradiction | eauto].
      * destruct IH as (e & Hin & H). exists e. auto.
    + destruct (strconv.ParseInt (strings.TrimSpace U u) 64) as [uid|] eqn:Hparse.
      * specialize (IH ({[ uid ]} ∪ ids)).
        destruct (loadUserIDs U rest ({[ uid ]} ∪ ids)) as [loaded|text].
        -- destruct IH as (Hgood & IH). split.
           { intros e [<- | Hin]; [congruence | now apply Hgood]. }
           intros n. rewrite IH, elem_of_union, elem_of_singleton. split.
           ++ intros [[-> | H] | (e & Hin & H)]; [right; exists u; auto | auto |].
              right. exists e. tauto.
           ++ intros [H | (e & [<- | Hin] & He & H)]; [auto | | eauto].
              left. left. congruence.
        -- destruct IH as (e & Hin & H). exists e. auto.
      * exists u. auto.
Qed.

Lemma loadUserNames_spec (entries : list string) (names : gset string) (name : string) :
  name ∈ loadUserNames U entries names <->
  name ∈ names \/ (name <> "" /\ exists e, In e entries /\ strings.TrimSpace U e = name).
Proof.
  revert names. induction entries as [|u rest IH]; intros names; simpl.
  - split; [auto | intros [H | (_ & e & [] & _)]; exact H].
  - destruct (decide (strings.TrimSpace U u = "")) as [Hblank|Hne].
    + rewrite IH. split.
      * intros [H | (Hn & e & Hin & H)]; [auto | right; eauto].
      * intros [H | (Hn & e & [<- | Hin] & H)]; [auto | congruence | right; eauto].
    + rewrite IH, elem_of_union, elem_of_singleton. split.
      * intros [[-> | H] | (Hn & e & Hin & H)]; [right; eauto | auto | right; eauto].
      * intros [H | (Hn & e & [<- | Hin] & H)]; [auto | auto | right; eauto].
Qed.

End Startup.

(** X11. What start-up loads.  When the process gets past the two
    loops, the allowed IDs are exactly the numbers that some non-blank
    entry of the comma-separated ID list denotes after trimming, and
    the allowed names are exactly the non-blank entries of the name
    list after trimming; the queue is empty.  The process exits with
    an error exactly when some non-blank entry of the ID list is not a
    64-bit integer; the name list cannot make it fail. *)
Theorem configure_spec (U : Unicode) (envIDs envNames : string) :
  (forall s : State,
      configure U envIDs envNames = Ok s ->
      (forall n : Z,
          n ∈ allowedUserIDs s <->
          exists e, In e (strings.Split envIDs)
                    /\ strings.TrimSpace U e <> ""
                    /\ strconv.ParseInt (strings.TrimSpace U e) 64 = Some n)
      /\ (forall name : string,
             name ∈ allowedUserNames s <->
             name <> "" /\ exists e, In e (strings.Split envNames)
                                     /\ strings.TrimSpace U e = name)
      /\ messageQueue s = [])
  /\ ((exists text, configure U envIDs envNames = Err text) <->
      exists e, In e (strings.Split envIDs)
                /\ strings.TrimSpace U e <> ""
                /\ strconv.ParseInt (strings.TrimSpace U e) 64 = None).
Proof.
  unfold configure.
  pose proof (loadUserIDs_spec U (strings.Split envIDs) (allowedUserIDs initial)) as Hids.
  destruct (loadUserIDs U (strings.Split envIDs) (allowedUserIDs initial))
    as [loaded|text].
  - destruct Hids as (Hgood & Hids). split.
    + intros s [= <-]. simpl. split; [|split; [|reflexivity]].
      * intros n. rewrite Hids. simpl. split; [intros [H | H]; [set_solver | exact H] | auto].
      * intros name. rewrite loadUserNames_spec. simpl.
        split; [intros [H | H]; [set_solver | exact H] | auto].
    + split; [intros (text & H); discriminate|].
      intros (e & Hin & Hne & Hnone). now destruct (Hgood e Hin Hne).
  - split; [intros s H; discriminate|].
    split; [|eauto]. intros _. destruct Hids as (e & Hin & Hne & Hnone & _). eauto.
Qed.

Lemma configure_spec_witness :
  (exists s : State,
      configure ascii_only " 1001, 42 ,," " ada ,bob" = Ok s
      /\ 42 ∈ allowedUserIDs s /\ "ada" ∈ allowedUserNames s)
  /\ exists text, configure ascii_only "1001,12x" "ada" = Err text.
Proof.
  split.
  - destruct (configure ascii_only " 1001, 42 ,," " ada ,bob") as [s|text] eqn:Hc;
      [|vm_compute in Hc; discriminate Hc].
    exists s. split; [reflexivity|].
    destruct (proj1 (configure_spec ascii_only " 1001, 42 ,," " ada ,bob") s Hc)
      as (Hids & Hnames & _).
    split.
    + apply Hids. exists " 42 ". split; [simpl; auto|]. split; [discriminate | reflexivity].
    + apply Hnames. split; [discriminate|]. exists " ada ". split; [simpl; auto | reflexivity].
  - apply (proj2 (configure_spec ascii_only "1001,12x" "ada")).
    exists "12x". split; [simpl; auto|]. split; [discriminate | reflexivity].
Defined.

Section Names.

Variable U : Unicode.

Lemma loadUserNames_no_empty (entries : list string) (names : gset string) :
  "" ∉ names -> "" ∉ loadUserNames U entries names.
Proof.
  intros Hnot Hin. apply loadUserNames_spec in Hin.
  destruct Hin as [Hin | (Hne & _)]; [contradiction | now apply Hne].
Qed.

Lemma loadUserIDs_blank (entries : list string) (ids : gset Z) :
  Forall (fun e => strings.TrimSpace U e = "") entries ->
  loadUserIDs U entries ids = Ok ids.
Proof.
  induction 1 as [|e entries He _ IH]; simpl; [reflexivity|].
  destruct (decide (strings.TrimSpace U e = "")); [exact IH | contradiction].
Qed.

Lemma loadUserNames_blank (entries : list string) (names : gset string) :
  Forall (fun e => strings.TrimSpace U e = "") entries ->
  loadUserNames U entries names = names.
Proof.
  induction 1 as [|e entries He _ IH]; simpl; [reflexivity|].
  destruct (decide (strings.TrimSpace U e = "")); [exact IH | contradiction].
Qed.

End Names.

(** X12. The empty user name is never on the allow-list, whatever the
    name list in the environment looks like (blank entries are skipped
    after trimming).  So a sender without user name passes the gate by
    numeric ID only. *)
Theorem nameless_sender_by_ID_only (U : Unicode) (envIDs envNames : string)
        (s : State) (usr : telegram.User) :
  configure U envIDs envNames = Ok s ->
  telegram.UserName usr = "" ->
  ("" ∉ allowedUserNames s)
  /\ (isAuthorized s (Some usr) = true <-> telegram.ID usr ∈ allowedUserIDs s).
Proof.
  unfold configure. intros Hc Hname.
  destruct (loadUserIDs U (strings.Split envIDs) (allowedUserIDs initial))
    as [loaded|text]; [|discriminate].
  injection Hc as <-. simpl.
  assert (Hno : "" ∉ loadUserNames U (strings.Split envNames) (allowedUserNames initial)).
  { apply loadUserNames_no_empty. simpl. set_solver. }
  split; [exact Hno|]. unfold isAuthorized. simpl in *. rewrite Hname.
  destruct (decide (telegram.ID usr ∈ loaded)); [tauto|].
  destruct (decide ("" ∈ loadUserNames U (strings.Split envNames) ∅));
    [contradiction|].
  split; [discriminate | contradiction].
Qed.

Lemma nameless_sender_by_ID_only_witness :
  isAuthorized (mkState {[ 1001 ]} {[ "ada" ]} [] [] ∅ [] [] [])
    (Some (telegram.mkUser 1001 "No" "Name" "")) = true
  /\ isAuthorized (mkState {[ 1001 ]} {[ "ada" ]} [] [] ∅ [] [] [])
       (Some (telegram.mkUser 7 "No" "Name" "")) = false.
Proof.
  assert (Hc : configure ascii_only "1001" " ada ,, "
               = Ok (mkState ({[ 1001 ]} ∪ ∅) ({[ "ada" ]} ∪ ∅) [] [] ∅ [] [] []))
    by reflexivity.
  replace ({[ 1001 ]} ∪ ∅ : gset Z) with ({[ 1001 ]} : gset Z) in Hc by set_solver.
  replace ({[ "ada" ]} ∪ ∅ : gset string) with ({[ "ada" ]} : gset string) in Hc
    by set_solver.
  split.
  - apply (proj2 (nameless_sender_by_ID_only ascii_only _ _ _
                    (telegram.mkUser 1001 "No" "Name" "") Hc eq_refl)).
    simpl. set_solver.
  - destruct (isAuthorized _ (Some (telegram.mkUser 7 "No" "Name" ""))) eqn:Ha;
      [|reflexivity].
    apply (proj2 (nameless_sender_by_ID_only ascii_only _ _ _
                    (telegram.mkUser 7 "No" "Name" "") Hc eq_refl)) in Ha.
    simpl in Ha. set_solver.
Defined.

(** X13. Closed by default.  When both lists of the environment hold
    nothing but blank entries (in particular when both variables are
    unset or empty), the process starts and the gate refuses every
    sender. *)
Theorem deny_by_default (U : Unicode) (envIDs envNames : string) :
  Forall (fun e => strings.TrimSpace U e = "") (strings.Split envIDs) ->
  Forall (fun e => strings.TrimSpace U e = "") (strings.Split envNames) ->
  configure U envIDs envNames = Ok initial
  /\ forall user : option telegram.User, isAuthorized initial user = false.
Proof.
  intros Hids Hnames. split.
  - unfold configure. now rewrite loadUserIDs_blank, loadUserNames_blank.
  - intros [usr|]; [|reflexivity]. unfold isAuthorized. simpl.
    destruct (decide (telegram.ID usr ∈ (∅ : gset Z))); [set_solver|].
    destruct (decide (telegram.UserName usr ∈ (∅ : gset string))); [set_solver|].
    reflexivity.
Qed.

Lemma deny_by_default_witness :
  configure ascii_only "" " , " = Ok initial
  /\ forall user : option telegram.User, isAuthorized initial user = false.
Proof.
  apply deny_by_default.
  - repeat constructor.
  - repeat constructor.
Defined.

(** ** Start-up reads back a list of decimal IDs *)

Lemma solid_pretty_N_char (d : N) : (d < 10)%N -> solid (pretty_N_char d).
Proof.
  intros Hd.
  assert (d = 0 \/ d = 1 \/ d = 2 \/ d = 3 \/ d = 4 \/ d = 5 \/ d = 6 \/ d = 7
          \/ d = 8 \/ d = 9)%N as Hcases by lia.
  repeat (destruct Hcases as [-> | Hcases]; [now vm_compute|]).
  subst d. now vm_compute.
Qed.

Lemma pretty_N_go_solid (x : N) (s : string) :
  Forall solid (list_ascii_of_string s) ->
  Forall solid (list_ascii_of_string (pretty_N_go x s)).
Proof.
  revert s. induction (N.lt_wf_0 x) as [x _ IH]. intros s Hs.
  destruct (decide (x = 0)%N) as [-> | Hx]; [now rewrite pretty_N_go_0|].
  rewrite pretty_N_go_step by lia.
  apply IH; [apply N.div_lt; lia|].
  simpl. constructor; [|exact Hs].
  apply solid_pretty_N_char, N.mod_lt. lia.
Qed.

Lemma fmt_d_solid (n : Z) :
  fmt.d n <> "" /\ Forall solid (list_ascii_of_string (fmt.d n)).
Proof.
  assert (Hpos : forall x : positive,
             pretty x <> "" /\ Forall solid (list_ascii_of_string (pretty x))).
  { intros x. unfold pretty, pretty_positive, pretty, pretty_N.
    destruct (decide (N.pos x = 0)%N); [discriminate|]. split.
    - destruct (pretty_N_go_first (N.pos x) "" ltac:(lia)) as (d & rest & _ & ->).
      discriminate.
    - apply pretty_N_go_solid. constructor. }
  unfold fmt.d, pretty, pretty_Z. destruct n as [|x|x].
  - split; [discriminate|]. repeat constructor.
  - apply Hpos.
  - split; [discriminate|].
    change ("-" +:+ pretty x) with (String "-" (pretty x)). simpl.
    constructor; [now vm_compute | apply Hpos].
Qed.

Section Decimal.

Variable U : Unicode.

Lemma solid_kept (c : ascii) :
  solid c -> (0x80 <=? byte c)%N = false /\ strings.asciiSpace c = false.
Proof.
  intros (Hlt & Hsp & _). split; [|exact Hsp].
  rewrite N.leb_antisym, Hlt. reflexivity.
Qed.

Lemma trim_end_solid (l : list ascii) :
  Forall solid l -> strings.trim_end U (rev l) = string_of_list_ascii l.
Proof.
  intros Hall. destruct (rev l) as [|last r] eqn:Hrev.
  - apply (f_equal (@rev ascii)) in Hrev. rewrite rev_involutive in Hrev.
    now subst l.
  - assert (Hlast : solid last).
    { rewrite Forall_forall in Hall. apply Hall. apply list_elem_of_In, in_rev.
      rewrite Hrev. now left. }
    cbn [strings.trim_end]. destruct (solid_kept last Hlast) as (-> & ->).
    now rewrite <- Hrev, rev_involutive.
Qed.

(** [TrimSpace] returns a string without white space as it is. *)
Lemma TrimSpace_solid (t : string) :
  Forall solid (list_ascii_of_string t) -> strings.TrimSpace U t = t.
Proof.
  destruct t as [|c t']; [reflexivity|]. intros Hall.
  unfold strings.TrimSpace.
  destruct (solid_kept c) as (-> & ->); [now inversion Hall|].
  rewrite (trim_end_solid _ Hall).
  apply string_of_list_ascii_of_string.
Qed.

Lemma Split_solid (x : string) :
  Forall solid (list_ascii_of_string x) ->
  strings.Split x = [x]
  /\ forall rest, strings.Split (x +:+ String "," rest) = x :: strings.Split rest.
Proof.
  induction x as [|c x IH]; intros Hall.
  - split; [reflexivity | intros rest; reflexivity].
  - simpl in Hall. inversion Hall as [|? ? (_ & _ & Hc) Hall']; subst.
    destruct (IH Hall') as (H1 & H2). split.
    + simpl. now rewrite Hc, H1.
    + intros rest. simpl. now rewrite Hc, H2.
Qed.

Lemma Split_join (l : list string) :
  l <> [] ->
  Forall (fun x => Forall solid (list_ascii_of_string x)) l ->
  strings.Split (join "," l) = l.
Proof.
  induction l as [|x l IH]; intros Hne Hall; [contradiction|].
  inversion Hall as [|? ? Hx Hl]; subst.
  destruct (Split_solid x Hx) as (H1 & H2).
  destruct l as [|y l]; [exact H1|].
  change (join "," (x :: y :: l)) with (x +:+ String "," (join "," (y :: l))).
  rewrite H2, IH; [reflexivity | discriminate | exact Hl].
Qed.

Lemma loadUserIDs_decimal (ns : list Z) (ids : gset Z) :
  Forall (fun n => - 2 ^ 63 <= n < 2 ^ 63) ns ->
  loadUserIDs U (map fmt.d ns) ids = Ok (list_to_set ns ∪ ids).
Proof.
  intros Hall. revert ids. induction Hall as [|n ns Hn _ IH]; intros ids; simpl.
  - f_equal. now rewrite (left_id_L ∅ (∪)).
  - destruct (fmt_d_solid n) as (Hne & Hsolid).
    rewrite (TrimSpace_solid _ Hsolid).
    destruct (decide (fmt.d n = "")); [contradiction|].
    rewrite (ParseInt_print n Hn), IH. f_equal.
    now rewrite (assoc_L (∪)), (comm_L (∪) (list_to_set ns) {[ n ]}).
Qed.

End Decimal.

(** X14. Start-up reads back what an operator writes.  For any list of
    64-bit numbers, written in decimal and joined with commas as the
    value of the ID list, the process starts and the allowed IDs are
    exactly the numbers of the list. *)
Theorem configure_decimal_list (U : Unicode) (ns : list Z) (envNames : string) :
  Forall (fun n => - 2 ^ 63 <= n < 2 ^ 63) ns ->
  exists s : State,
    configure U (join "," (map fmt.d ns)) envNames = Ok s
    /\ allowedUserIDs s = list_to_set ns.
Proof.
  intros Hall. unfold configure.
  assert (Hload : loadUserIDs U (strings.Split (join "," (map fmt.d ns)))
                    (allowedUserIDs initial)
                  = Ok (list_to_set ns)).
  { destruct ns as [|n ns]; [reflexivity|].
    rewrite Split_join.
    - rewrite (loadUserIDs_decimal U _ _ Hall). f_equal. simpl.
      now rewrite (right_id_L ∅ (∪)).
    - discriminate.
    - apply Forall_map, Forall_forall. intros m _. apply fmt_d_solid. }
  rewrite Hload. eexists. split; [reflexivity|]. reflexivity.
Qed.

Lemma configure_decimal_list_witness :
  exists s : State,
    configure ascii_only "1001,-42,7" "ada" = Ok s
    /\ allowedUserIDs s = list_to_set [1001; -42; 7].
Proof.
  apply (configure_decimal_list ascii_only [1001; -42; 7] "ada").
  repeat constructor; lia.
Defined.

(** ** The extension of a materialized file *)

Lemma scan_shape (r : list ascii) (suffix : string) :
  plain_name suffix ->
  filepath.scan r suffix = ""
  \/ exists rest, filepath.scan r suffix = String "." rest /\ plain_name rest.
Proof.
  revert suffix. induction r as [|c r IH]; intros suffix Hs; simpl; [now left|].
  destruct (Ascii.eqb_spec c "/") as [->|Hslash]; [now left|].
  destruct (Ascii.eqb_spec c ".") as [->|Hdot]; [right; eauto|].
  apply IH. intros c' [<- | Hin]; [split; assumption | now apply Hs].
Qed.

Lemma Ext_shape (path : string) :
  filepath.Ext path = ""
  \/ exists rest, filepath.Ext path = String "." rest /\ plain_name rest.
Proof. apply scan_shape. intros c []. Qed.

(** X15. The extension the listener stores on a record, which the
    poll appends to the fresh name of the file it writes, is empty or
    one dot followed by characters that are neither a dot nor a path
    separator, whatever file path the bot API reports: the file path
    of the platform cannot put a directory into the name of the stored
    file. *)
Theorem listener_FileExt (W : World) (update : telegram.Update) (s s' : State) :
  listen W update s = Enqueued s' ->
  exists m : Message,
    messageQueue s' = (messageQueue s ++ [m])%list
    /\ (FileExt m = ""
        \/ exists rest, FileExt m = String "." rest /\ plain_name rest).
Proof.
  intros Hl.
  destruct (telegram.u_Message update) as [um|] eqn:Hum.
  2: { unfold listen in Hl. rewrite Hum in Hl. discriminate. }
  destruct (listen_Enqueued W update um s s' Hum Hl)
    as (usr & m1 & s1 & m & s2 & _ & _ & Hrv & Hrp & Hq).
  exists m. split; [exact Hq|].
  apply resolveVoice_Some in Hrv. apply resolvePhoto_Kept in Hrp.
  destruct Hrv as (_ & Hrv). destruct Hrp as (_ & Hrp).
  assert (Hm1 : FileExt m1 = ""
                \/ exists rest, FileExt m1 = String "." rest /\ plain_name rest).
  { destruct (telegram.m_Voice um).
    - destruct Hrv as (f & _ & -> & _). simpl. apply Ext_shape.
    - destruct Hrv as (-> & _). now left. }
  destruct (telegram.m_Photo um).
  - destruct Hrp as (p & ps & f & _ & _ & ->). simpl. apply Ext_shape.
  - now subst m.
Qed.

Lemma listener_FileExt_witness :
  exists m : Message,
    messageQueue (turn_state (listen world_traversal update_both st0)) = ([] ++ [m])%list
    /\ FileExt m = ".gz".
Proof.
  destruct (listener_FileExt world_traversal update_both st0 _ eq_refl)
    as (m & Hq & _).
  exists m. split; [exact Hq|].
  simpl in Hq. injection Hq as <-. reflexivity.
Defined.

(** ** The handlers keep apart *)

Section Apart.

Variable W : World.

Lemma uploadToWs_apart (url ext : string) (s : State) :
  allowedUserIDs (snd (uploadToWs W url ext s)) = allowedUserIDs s
  /\ allowedUserNames (snd (uploadToWs W url ext s)) = allowedUserNames s
  /\ resolved (snd (uploadToWs W url ext s)) = resolved s
  /\ sent (snd (uploadToWs W url ext s)) = sent s.
Proof.
  unfold uploadToWs.
  destruct (http_Get W _ url) as [resp|e]; [|now simpl].
  destruct (Body resp) as [b|e]; [|now simpl].
  destruct (WriteFileInWorkspace W _ _ b); now simpl.
Qed.

Lemma materialize_apart (msg : Message) (s : State) :
  allowedUserIDs (snd (materialize W msg s)) = allowedUserIDs s
  /\ allowedUserNames (snd (materialize W msg s)) = allowedUserNames s
  /\ resolved (snd (materialize W msg s)) = resolved s
  /\ sent (snd (materialize W msg s)) = sent s.
Proof.
  unfold materialize.
  destruct (decide (VoiceURL msg <> "")).
  - pose proof (uploadToWs_apart (VoiceURL msg) (FileExt msg) s) as H.
    destruct (uploadToWs W (VoiceURL msg) (FileExt msg) s) as [[path err] s1].
    now destruct err.
  - destruct (decide (ImageURL msg <> "")); [|now simpl].
    pose proof (uploadToWs_apart (ImageURL msg) (FileExt msg) s) as H.
    destruct (uploadToWs W (ImageURL msg) (FileExt msg) s) as [[path err] s1].
    now destruct err.
Qed.

Lemma drain_apart (q : list Message) (s : State) (w : ResponseWriter) :
  allowedUserIDs (fst (drain W q s w)) = allowedUserIDs s
  /\ allowedUserNames (fst (drain W q s w)) = allowedUserNames s
  /\ resolved (fst (drain W q s w)) = resolved s
  /\ sent (fst (drain W q s w)) = sent s.
Proof.
  revert s w. induction q as [|msg q IH]; intros s w; simpl; [auto|].
  pose proof (materialize_apart msg (add_log (LogFound msg) (set_queue q s))) as Hm.
  destruct (materialize W msg _) as [[m'|text] s1]; simpl in Hm; [|exact Hm].
  destruct (IH s1 (rw_Write (Marshal m') w)) as (H1 & H2 & H3 & H4).
  destruct Hm as (H5 & H6 & H7 & H8). repeat split; congruence.
Qed.

End Apart.

(** X16. The two endpoints keep apart, and neither touches the
    allow-lists.  A poll never gives a message to the send API and never
    asks the bot API to resolve a file; a [/send] request never changes
    the queue, fetches nothing, stores nothing, and gives at most one
    message to the send API.  Both leave the allowed IDs and names as
    start-up set them, so the gate answers the same for a sender
    before and after any request. *)
Theorem handlers_keep_apart (W : World) :
  (forall (s : State) (w : ResponseWriter),
      sent (fst (handleMessage W s w)) = sent s
      /\ resolved (fst (handleMessage W s w)) = resolved s
      /\ forall user, isAuthorized (fst (handleMessage W s w)) user = isAuthorized s user)
  /\ (forall (r : Request) (s : State) (w : ResponseWriter),
         messageQueue (fst (handleSend W r s w)) = messageQueue s
         /\ fetched (fst (handleSend W r s w)) = fetched s
         /\ workspace (fst (handleSend W r s w)) = workspace s
         /\ (sent (fst (handleSend W r s w)) = sent s
             \/ exists msg, sent (fst (handleSend W r s w)) = (sent s ++ [msg])%list)
         /\ forall user, isAuthorized (fst (handleSend W r s w)) user = isAuthorized s user).
Proof.
  split.
  - intros s w. unfold handleMessage.
    destruct (drain_apart W (messageQueue s) s w) as (Hi & Hn & Hr & Hs).
    repeat split; try assumption.
    intros user. unfold isAuthorized. now rewrite Hi, Hn.
  - intros r s w. unfold handleSend, dispatch.
    destruct (ReadAll_Body r) as [bodyBytes|e]; [|simpl; auto 10].
    destruct (json_Unmarshal W bodyBytes) as [req|e]; [|simpl; auto 10].
    destruct (strconv.ParseInt (ChatID req) 64) as [chatID|]; [|simpl; auto 10].
    destruct (decide (MsgID req <> "")).
    + destruct (strconv.Atoi (MsgID req)) as [msgID|]; [|simpl; auto 10].
      destruct (bot_Send W _ _); simpl; repeat split; eauto.
    + destruct (bot_Send W _ _); simpl; repeat split; eauto.
Qed.
